(** * A shallow embedding of [scrapper.py]

    The crawler of [scrapper.py] walks paginated listing pages, collects
    article links into a bounded set, persists its progress in two JSON
    state files and then parses every discovered article.  This file
    embeds the program as state-passing functions over an explicit
    model of the two state files and of the network, and proves the
    properties the specification states about it. *)

From Stdlib Require Import ZArith String Ascii List Lia Sorted Permutation.
From stdpp Require Import base option list gmap sets strings pretty sorting.

Local Open Scope Z_scope.

(** ** Python values and exceptions *)

(** The exception classes that the program raises or lets escape. The
    last four are declared in [scrapper.py] (lines 29-50). *)
Inductive exn : Set :=
  | TypeError
  | KeyError
  | IndexError
  | AttributeError
  | ValueError
  | RecursionError
  | IncorrectURLError
  | NumberOfArticlesOutOfRangeError
  | IncorrectNumberOfArticlesError
  | UnknownConfigError.

(** The outcome of a call: a value or a raised exception. *)
Inductive res (A : Type) : Type :=
  | Ret (a : A)
  | Raise (e : exn).
Arguments Ret {A} a.
Arguments Raise {A} e.

Definition res_bind {A B} (r : res A) (k : A → res B) : res B :=
  match r with
  | Ret a => k a
  | Raise e => Raise e
  end.

(** [l[:n]]: a negative bound counts from the end of the list. *)
Definition slice_to {A} (l : list A) (n : Z) : list A :=
  if 0 <=? n then take (Z.to_nat n) l
  else take (length l - Z.to_nat (- n))%nat l.

(** [sorted(s)] on a set of [str]: ascending code-point order, which on
    UTF-8 encoded strings is the byte-wise lexicographic order. *)
Definition str_le (a b : string) : Prop := String.leb a b = true.

#[global] Instance str_le_dec : RelDecision str_le :=
  λ a b, decide (String.leb a b = true).

Definition sorted (X : gset string) : list string :=
  merge_sort str_le (elements X).

(** [enumerate(l)] *)
Definition enumerate {A} (l : list A) : list (nat * A) :=
  imap (λ i x, (i, x)) l.

(** ** The external collaborators *)

(** What [fetch_page] may bind to [page]: [None], a page body, or (line
    74) the value of an [is None] test. *)
Inductive markup : Type :=
  | MNone
  | MBool (b : bool)
  | MStr (s : string).

Definition markup_of (r : option string) : markup :=
  match r with
  | Some body => MStr body
  | None => MNone
  end.

(** A parsed document, seen through the selectors the program applies:
    each field is what that selector yields on the document.
    - [news]: ['div.col-md-9 div.col-md-6 h2 a'], the [href] attribute of
      every matched anchor, [None] for an anchor without one;
    - [pagination_next]: [select_one('ul.pagination li:has(span.current) + li a')]
      and its [href] attribute;
    - [entry_paragraphs]: the text of ['.entry-content > p'];
    - [h1], [li_autor]: the text of [select_one('h1')], [select_one('li.autor')];
    - [time_entry_date]: [select_one('time.entry-date')] and its
      [datetime] attribute;
    - [categories]: the text of ['a[rel^="category"]']. *)
Record Soup : Type := mkSoup {
  news : list (option string);
  pagination_next : option (option string);
  entry_paragraphs : list string;
  h1 : option string;
  li_autor : option string;
  time_entry_date : option (option string);
  categories : list string
}.

Inductive datetime : Set :=
  | Datetime (year month day hour minute second : Z).

(** The environment of a run, with fixed content:
    - [http_get url]: the text of the response to [requests.get], [None]
      when the request or [raise_for_status] raises [RequestException];
    - [lxml]: the lxml tree builder behind [BeautifulSoup(_, 'lxml')];
    - [fromisoformat]: [datetime.fromisoformat], [None] when it raises
      [ValueError]. *)
Record Env : Type := mkEnv {
  http_get : string → option string;
  lxml : string → Soup;
  fromisoformat : string → option datetime
}.

(** ** Persistent state *)

(** The content of the [CRAWLER_STATE] file, as [_save_state] writes it. *)
Record CrawlState : Type := mkCrawlState {
  st_urls : list string;
  st_seed : list string
}.

(** Modelled from the spec: the class [Article] of module [article] is
    not part of the sources. An article is identified by its url and
    sequence id and is created empty; [ArticleParser] fills [text],
    [title], [author], [date] and [topics]. *)
Record Article : Type := mkArticle {
  url : string;
  article_id_of : nat;
  text : option string;
  title : option string;
  author : option string;
  date : option datetime;
  topics : list string
}.

Definition Article_init (url : string) (article_id : nat) : Article :=
  mkArticle url article_id None None None None [].

(** Everything a run can observe or change outside its own objects:
    - [crawler_state]: the [CRAWLER_STATE] file, [None] when absent;
    - [parser_state]: the ["processed"] list of the [PARSER_STATE] file;
    - [requests]: the urls handed to [requests.get], most recent first;
    - [stored]: the articles handed to [Article.save_raw], most recent
      first. *)
Record Sys : Type := mkSys {
  crawler_state : option CrawlState;
  parser_state : option (list string);
  requests : list string;
  stored : list Article
}.

(** ** Computations: state passing with exceptions *)

Definition M (A : Type) : Type := Sys → res A * Sys.

Definition ret {A} (a : A) : M A := λ s, (Ret a, s).
Definition raise {A} (e : exn) : M A := λ s, (Raise e, s).
Definition lift {A} (r : res A) : M A := λ s, (r, s).
Definition bind {A B} (m : M A) (k : A → M B) : M B :=
  λ s, match m s with
       | (Ret a, s') => k a s'
       | (Raise e, s') => (Raise e, s')
       end.

Declare Scope py_scope.
Delimit Scope py_scope with py.
Notation "x <- m ;; k" := (bind m (λ x, k))
  (at level 100, m at next level, right associativity) : py_scope.
Notation "m ;;; k" := (bind m (λ _, k))
  (at level 100, right associativity) : py_scope.
Local Open Scope py_scope.

Section Collaborators.

Context (E : Env).

(** [BeautifulSoup(markup, 'lxml')]. The constructor takes [len(markup)]
    of anything that has no [read] attribute, so [None] and booleans
    raise [TypeError]. *)
Definition BeautifulSoup (m : markup) : res Soup :=
  match m with
  | MStr body => Ret (lxml E body)
  | MNone | MBool _ => Raise TypeError
  end.

(** [fetch_page] (lines 243-253): the exception of a failed request is
    caught and the function falls off its end, returning [None]. *)
Definition fetch_page (u : string) : M (option string) :=
  λ s, (Ret (http_get E u),
        mkSys (crawler_state s) (parser_state s) (u :: requests s) (stored s)).

End Collaborators.

(** ** Crawler (lines 53-112) *)

Module Crawler.

(** The attributes of a crawler (lines 57-66); both counts are [int]s. *)
Record t : Type := mk {
  seed_urls : list string;
  max_articles : Z;
  max_articles_per_seed : Z;
  urls : gset string
}.

Definition __init__ (seed_urls : list string)
    (max_articles max_articles_per_seed : Z) : t :=
  mk seed_urls max_articles max_articles_per_seed ∅.

(** [self.urls.update(links)] *)
Definition urls_update (self : t) (links : list string) : t :=
  mk (seed_urls self) (max_articles self) (max_articles_per_seed self)
     (urls self ∪ list_to_set links).

(** [len(self.urls)] *)
Definition len_urls (self : t) : Z := Z.of_nat (size (urls self)).

(** [get_search_urls] (lines 87-91) *)
Definition get_search_urls (self : t) : list string := seed_urls self.

(** [_extract_url] (lines 94-101): [article.attrs['href']] raises
    [KeyError] on an anchor without that attribute. *)
Fixpoint hrefs (anchors : list (option string)) : res (list string) :=
  match anchors with
  | [] => Ret []
  | Some h :: rest => res_bind (hrefs rest) (λ hs, Ret (h :: hs))
  | None :: _ => Raise KeyError
  end.

Definition _extract_url (article_bs : Soup) : res (list string) :=
  hrefs (news article_bs).

Section Methods.

Context (E : Env).

(** [_process_seed] (lines 103-112) *)
Definition _process_seed (self : t) (page : markup) : res (list string) :=
  res_bind (BeautifulSoup E page) (λ soup,
  res_bind (_extract_url soup) (λ all_links,
    let seed_articles := slice_to all_links (max_articles_per_seed self) in
    let links := slice_to seed_articles (max_articles self - len_urls self) in
    Ret links)).

(** The loop of [find_articles] (lines 72-85). On line 74 the walrus
    binds [page] to the value of [fetch_page(url) is None]. *)
Fixpoint find_articles_loop (todo : list string) (self : t) : M t :=
  match todo with
  | [] => ret self
  | u :: rest =>
      r <- fetch_page E u;;
      let page := bool_decide (r = None) in
      if page then find_articles_loop rest self
      else
        links <- lift (_process_seed self (MBool page));;
        let self := urls_update self links in
        if len_urls self =? max_articles self then ret self
        else find_articles_loop rest self
  end.

(** [find_articles] (lines 68-85) *)
Definition find_articles (self : t) : M t :=
  find_articles_loop (get_search_urls self) self.

End Methods.

End Crawler.

(** ** CrawlerRecursive (lines 115-169) *)

Module CrawlerRecursive.

Import Crawler.

(** [_load_state] (lines 164-169) *)
Definition _load_state (self : Crawler.t) : M Crawler.t :=
  λ s, match crawler_state s with
       | Some status =>
           (Ret (Crawler.mk (st_seed status) (max_articles self)
                            (max_articles_per_seed self)
                            (list_to_set (st_urls status))), s)
       | None => (Ret self, s)
       end.

(** [_save_state] (lines 153-162) *)
Definition _save_state (self : Crawler.t) : M unit :=
  λ s, (Ret tt,
        mkSys (Some (mkCrawlState (sorted (urls self)) (seed_urls self)))
              (parser_state s) (requests s) (stored s)).

Section Methods.

Context (E : Env).

(** [get_search_urls] (lines 141-151): [self.seed_urls[0]] raises
    [IndexError] on an empty list, [next_page['href']] raises
    [TypeError] when [select_one] found nothing and [KeyError] when the
    anchor has no [href]. *)
Definition get_search_urls (self : Crawler.t) : M (string * string) :=
  match seed_urls self with
  | [] => raise IndexError
  | seed :: _ =>
      page <- fetch_page E seed;;
      soup <- lift (BeautifulSoup E (markup_of page));;
      match pagination_next soup with
      | None => raise TypeError
      | Some None => raise KeyError
      | Some (Some href) => ret (seed, href)
      end
  end.

(** One call of [find_articles] up to its self-call (lines 123-137).
    The result says whether line 131 returned. *)
Definition seed_step (self : Crawler.t) : M (bool * Crawler.t) :=
  self <- _load_state self;;
  found <- get_search_urls self;;
  let '(seed, next) := found in
  let self := Crawler.mk (<[0%nat := next]> (seed_urls self)) (max_articles self)
                         (max_articles_per_seed self) (urls self) in
  page <- fetch_page E seed;;
  links <- lift (_process_seed E self (markup_of page));;
  let self := urls_update self links in
  if len_urls self =? max_articles self then ret (true, self)
  else
    _save_state self;;;
    ret (false, self).

(** [find_articles] (lines 119-139). Python bounds the depth of nested
    calls; [depth] is the number of nested self-calls that are still
    available, and the call that exceeds it raises [RecursionError].
    The interpreter raises it somewhere inside that call, before the
    call can complete; here it is raised at its entry, so the request
    log of such a run may lack requests of that last call. *)
Fixpoint find_articles (depth : nat) (self : Crawler.t) : M Crawler.t :=
  match depth with
  | O => raise RecursionError
  | S depth =>
      step <- seed_step self;;
      let '(returned, self) := step in
      if returned : bool then ret self
      else find_articles depth self
  end.

End Methods.

End CrawlerRecursive.

(** ** ArticleParser (lines 172-240) *)

Module ArticleParser.

(** The attributes of a parser (lines 176-183). *)
Record t : Type := mk {
  article : Article;
  full_url : string;
  article_id : nat
}.

Definition __init__ (full_url : string) (article_id : nat) : t :=
  mk (Article_init full_url article_id) full_url article_id.

(** [_load_state] (lines 234-240): the set of processed urls, or the
    empty dict when the file does not exist. *)
Definition _load_state : M (gset string) :=
  λ s, (Ret (match parser_state s with
             | Some processed => list_to_set processed
             | None => ∅
             end), s).

(** [_save_state] (lines 222-232): a missing file is first created with
    an empty list, then the list is read, extended and written back. *)
Definition _save_state (self : t) : M unit :=
  λ s, let processed := default [] (parser_state s) in
       (Ret tt,
        mkSys (crawler_state s) (Some (processed ++ [url (article self)]))
              (requests s) (stored s)).

(** [save] (lines 207-208) *)
Definition save (self : t) : M unit :=
  λ s, (Ret tt,
        mkSys (crawler_state s) (parser_state s) (requests s)
              (article self :: stored s)).

Definition newline : string := String (ascii_of_nat 10) EmptyString.

(** [_fill_article_with_text] (lines 210-211) *)
Definition _fill_article_with_text (self : t) (article_soup : Soup) : t :=
  let a := article self in
  mk (mkArticle (url a) (article_id_of a)
                (Some (String.concat newline (entry_paragraphs article_soup)))
                (title a) (author a) (date a) (topics a))
     (full_url self) (article_id self).

Section Methods.

Context (E : Env).

(** [unify_date_format] (lines 185-190) *)
Definition unify_date_format (date_str : string) : res datetime :=
  match fromisoformat E date_str with
  | Some d => Ret d
  | None => Raise ValueError
  end.

(** [_fill_article_with_meta_information] (lines 213-220): [.text] and
    [.attrs] of a [select_one] that found nothing raise
    [AttributeError], a missing [datetime] attribute raises [KeyError].
    The fields assigned before an exception are dropped with the
    object, which no caller inspects afterwards. *)
Definition _fill_article_with_meta_information (self : t) (article_soup : Soup)
    : res t :=
  match h1 article_soup with
  | None => Raise AttributeError
  | Some title' =>
  match li_autor article_soup with
  | None => Raise AttributeError
  | Some author' =>
  match time_entry_date article_soup with
  | None => Raise AttributeError
  | Some None => Raise KeyError
  | Some (Some date_str) =>
      res_bind (unify_date_format date_str) (λ date',
        let a := article self in
        Ret (mk (mkArticle (url a) (article_id_of a) (text a)
                           (Some title') (Some author') (Some date')
                           (categories article_soup))
                (full_url self) (article_id self)))
  end end end.

(** [parse] (lines 192-205) *)
Definition parse (self : t) : M t :=
  processed <- _load_state;;
  if bool_decide (full_url self ∈ processed) then ret self
  else
    page <- fetch_page E (full_url self);;
    soup <- lift (BeautifulSoup E (markup_of page));;
    let self := _fill_article_with_text self soup in
    self <- lift (_fill_article_with_meta_information self soup);;
    _save_state self;;;
    ret self.

End Methods.

End ArticleParser.

(** ** Config validation (lines 264-299) *)

(** What [json.load] returns. A float keeps its [repr]; the members of
    an object are the items of the resulting dict, in insertion order. *)
#[local] Unset Elimination Schemes.
Inductive json : Type :=
  | JNull
  | JBool (b : bool)
  | JInt (n : Z)
  | JFloat (repr : string)
  | JStr (s : string)
  | JArr (items : list json)
  | JObj (members : list (string * json)).
#[local] Set Elimination Schemes.

(** Regular expressions over UTF-8 bytes, matched by derivatives. *)
Module Re.

Inductive regex : Type :=
  | Empty
  | Eps
  | Byte (p : ascii → bool)
  | Cat (r1 r2 : regex)
  | Alt (r1 r2 : regex)
  | Star (r : regex).

Definition Plus (r : regex) : regex := Cat r (Star r).
Definition Opt (r : regex) : regex := Alt r Eps.

Fixpoint lit (s : string) : regex :=
  match s with
  | EmptyString => Eps
  | String c s' => Cat (Byte (Ascii.eqb c)) (lit s')
  end.

Fixpoint nullable (r : regex) : bool :=
  match r with
  | Empty => false
  | Eps => true
  | Byte _ => false
  | Cat r1 r2 => nullable r1 && nullable r2
  | Alt r1 r2 => nullable r1 || nullable r2
  | Star _ => true
  end.

Fixpoint deriv (c : ascii) (r : regex) : regex :=
  match r with
  | Empty => Empty
  | Eps => Empty
  | Byte p => if p c then Eps else Empty
  | Cat r1 r2 =>
      if nullable r1 then Alt (Cat (deriv c r1) r2) (deriv c r2)
      else Cat (deriv c r1) r2
  | Alt r1 r2 => Alt (deriv c r1) (deriv c r2)
  | Star r' => Cat (deriv c r') (Star r')
  end.

(** [pattern.match(s)]: whether some prefix of [s] is in the language. *)
Fixpoint match_ (r : regex) (s : string) : bool :=
  nullable r ||
  match s with
  | EmptyString => false
  | String c s' => match_ (deriv c r) s'
  end.

Definition in_range (lo hi : string) (c : ascii) : bool :=
  match lo, hi with
  | String l _, String h _ => Ascii.leb l c && Ascii.leb c h
  | _, _ => false
  end.

(** [[0-9]] *)
Definition digit : regex := Byte (in_range "0" "9").

(** [[a-z]] under [re.I] on a [str] pattern: the 52 ASCII letters and
    the four letters that case-fold onto them, U+0130, U+0131, U+017F
    and U+212A, here in UTF-8. *)
Definition letter_i : regex :=
  Alt (Byte (λ c, in_range "a" "z" c || in_range "A" "Z" c))
 (Alt (Cat (Byte (Ascii.eqb "196")) (Byte (λ c, Ascii.eqb "176" c || Ascii.eqb "177" c)))
 (Alt (Cat (Byte (Ascii.eqb "197")) (Byte (Ascii.eqb "191")))
      (Cat (Byte (Ascii.eqb "226")) (Cat (Byte (Ascii.eqb "132")) (Byte (Ascii.eqb "170")))))).

(** An ASCII letter of the pattern under [re.I]; [s] also matches U+017F. *)
Definition chr_i (lower upper : string) : regex :=
  Alt (lit lower) (lit upper).

Definition s_i : regex :=
  Alt (chr_i "s" "S") (Cat (Byte (Ascii.eqb "197")) (Byte (Ascii.eqb "191"))).

End Re.

(** [re.compile(r'^(https?://)?[0-9a-z]+\.[-_0-9a-z]+\.[0-9a-z/]+', re.I)]
    (line 275) *)
Definition url_check : Re.regex :=
  let alnum := Re.Alt Re.digit Re.letter_i in
  Re.Cat (Re.Opt (Re.Cat (Re.chr_i "h" "H") (Re.Cat (Re.chr_i "t" "T")
         (Re.Cat (Re.chr_i "t" "T") (Re.Cat (Re.chr_i "p" "P")
         (Re.Cat (Re.Opt Re.s_i) (Re.lit "://")))))))
 (Re.Cat (Re.Plus alnum)
 (Re.Cat (Re.lit ".")
 (Re.Cat (Re.Plus (Re.Alt (Re.lit "-") (Re.Alt (Re.lit "_") alnum)))
 (Re.Cat (Re.lit ".")
         (Re.Plus (Re.Alt alnum (Re.lit "/"))))))).

(** [repr(x)]; the quoting of a nested [str] is simplified to single
    quotes without escapes. *)
Fixpoint py_repr (x : json) : string :=
  match x with
  | JNull => "None"
  | JBool true => "True"
  | JBool false => "False"
  | JInt n => pretty n
  | JFloat r => r
  | JStr s => "'" +:+ s +:+ "'"
  | JArr items => "[" +:+ String.concat ", " (map py_repr items) +:+ "]"
  | JObj members =>
      "{" +:+ String.concat ", "
                (map (λ kv, match kv with
                            | (k, v) => "'" +:+ k +:+ "': " +:+ py_repr v
                            end) members) +:+ "}"
  end.

(** [str(x)] *)
Definition py_str (x : json) : string :=
  match x with
  | JStr s => s
  | _ => py_repr x
  end.

(** The number of bytes of the UTF-8 sequence that [c] starts. *)
Definition utf8_width (c : ascii) : nat :=
  let n := nat_of_ascii c in
  if (n <? 192)%nat then 1
  else if (n <? 224)%nat then 2
  else if (n <? 240)%nat then 3
  else 4.

(** The characters of a [str], each as a one-character [str]. *)
Fixpoint chars_from (pending : nat) (cur : string) (s : string) : list string :=
  match s with
  | EmptyString => match cur with EmptyString => [] | _ => [cur] end
  | String c s' =>
      match pending with
      | O =>
          match cur with
          | EmptyString => chars_from (utf8_width c - 1) (String c EmptyString) s'
          | _ => cur :: chars_from (utf8_width c - 1) (String c EmptyString) s'
          end
      | S pending' => chars_from pending' (cur +:+ String c EmptyString) s'
      end
  end.

Definition chars (s : string) : list string := chars_from 0 EmptyString s.

(** [for x in v]: the items of a list, the characters of a [str], the
    keys of a dict; anything else is not iterable. *)
Definition py_iter (v : json) : res (list json) :=
  match v with
  | JArr items => Ret items
  | JStr s => Ret (JStr <$> chars s)
  | JObj members => Ret ((λ kv, JStr kv.1) <$> members)
  | JNull | JBool _ | JInt _ | JFloat _ => Raise TypeError
  end.

Fixpoint assoc (key : string) (members : list (string * json)) : option json :=
  match members with
  | [] => None
  | (k, v) :: rest => if String.eqb k key then Some v else assoc key rest
  end.

(** [config[key]] with a [str] key: only a dict accepts it. *)
Definition subscript (config : json) (key : string) : res json :=
  match config with
  | JObj members =>
      match assoc key members with
      | Some v => Ret v
      | None => Raise KeyError
      end
  | _ => Raise TypeError
  end.

(** [isinstance(v, int)]; [bool] is a subclass of [int]. *)
Definition isinstance_int (v : json) : bool :=
  match v with
  | JInt _ | JBool _ => true
  | _ => false
  end.

(** [0 < v <= 100000] on an [int] *)
Definition in_count_range (v : json) : bool :=
  match v with
  | JInt n => (0 <? n) && (n <=? 100000)
  | JBool b => b
  | _ => false
  end.

(** The [try] block of [validate_config] (lines 274-295). *)
Definition validate_config_try (config : json) : res (json * json * json) :=
  res_bind (subscript config "total_articles_to_find_and_parse") (λ total_num,
  let is_correct_total_num := isinstance_int total_num in
  res_bind (subscript config "base_urls") (λ base_urls,
  res_bind (py_iter base_urls) (λ xs,
  let is_correct_url := forallb (λ x, Re.match_ url_check (py_str x)) xs in
  let is_num_not_oor := is_correct_total_num && in_count_range total_num in
  let checks :=
    [ (is_correct_url, IncorrectURLError);
      (is_correct_total_num, IncorrectNumberOfArticlesError);
      (is_num_not_oor, NumberOfArticlesOutOfRangeError) ] in
  match filter (λ check, check.1 = false) checks with
  | check :: _ => Raise check.2
  | [] =>
      res_bind (subscript config "base_urls") (λ r1,
      res_bind (subscript config "total_articles_to_find_and_parse") (λ r2,
      res_bind (subscript config "max_number_articles_to_get_from_one_seed") (λ r3,
      Ret (r1, r2, r3))))
  end))).

(** [validate_config] (lines 264-299) on the value that [json.load]
    returned: the handler turns [KeyError] into [UnknownConfigError].
    Opening and loading the file (lines 268-269) stand before the
    [try]; what they raise leaves the function as it is and is not
    part of this model. *)
Definition validate_config (config : json) : res (json * json * json) :=
  match validate_config_try config with
  | Raise KeyError => Raise UnknownConfigError
  | r => r
  end.

(** ** The main routine (lines 302-321) *)

Section Main.

Context (E : Env).

(** The loop of [main] (lines 311-319) over [enumerate(sorted(crawler.urls))]. *)
Fixpoint parse_phase (items : list (nat * string)) : M unit :=
  match items with
  | [] => ret tt
  | (idx, article_url) :: rest =>
      let parser := ArticleParser.__init__ article_url idx in
      parser <- ArticleParser.parse E parser;;
      ArticleParser.save parser;;;
      parse_phase rest
  end.

(** [main] from line 304 on, given the triple that [validate_config]
    returned; the output directory is not modelled. *)
Definition main (urls : list string) (max_num_articles max_per_seed : Z)
    (depth : nat) : M unit :=
  let crawler := Crawler.__init__ urls max_num_articles max_per_seed in
  crawler <- CrawlerRecursive.find_articles E depth crawler;;
  parse_phase (enumerate (sorted (Crawler.urls crawler))).

End Main.

(** ** Observations used by the statements *)

(** Both the crawler object and the [CRAWLER_STATE] file hold at most
    [max_articles] urls. *)
Definition capped (self : Crawler.t) (s : Sys) : Prop :=
  Crawler.len_urls self <= Crawler.max_articles self ∧
  ∀ status, crawler_state s = Some status →
    Z.of_nat (size (list_to_set (st_urls status) : gset string))
      <= Crawler.max_articles self.

(** The crawler object that [_load_state] leaves behind. *)
Definition loaded (self : Crawler.t) (s : Sys) : Crawler.t :=
  match crawler_state s with
  | Some status =>
      Crawler.mk (st_seed status) (Crawler.max_articles self)
                 (Crawler.max_articles_per_seed self)
                 (list_to_set (st_urls status))
  | None => self
  end.

(** The system after the two requests for [seed] that one call of
    [CrawlerRecursive.find_articles] makes, with [file] as the content
    of [CRAWLER_STATE]. *)
Definition after_step (s : Sys) (seed : string) (file : option CrawlState) : Sys :=
  mkSys file (parser_state s) (seed :: seed :: requests s) (stored s).

(** The crawler and the system after [k] calls of
    [CrawlerRecursive.find_articles] that each persisted the state and
    went on; [None] when one of them raised or returned. A process
    killed after a persisting step leaves the system in such a state. *)
Fixpoint walked (E : Env) (k : nat) (self : Crawler.t) (s : Sys)
    : option (Crawler.t * Sys) :=
  match k with
  | O => Some (self, s)
  | S k' =>
      match CrawlerRecursive.seed_step E self s with
      | (Ret (false, self'), s') => walked E k' self' s'
      | _ => None
      end
  end.

(** ** A small site *)

(** Two listing pages with three article links each, followed by a last
    listing page without a "next" control, and the article pages. The
    body of every page is identified with its address. *)
Module Site.

Local Open Scope string_scope.

Definition listing (n : string) : string := "https://news.example.org/page/" +:+ n.
Definition story (n : string) : string := "https://news.example.org/story/" +:+ n.

Definition listing_soup (links : list string) (next : option (option string)) : Soup :=
  mkSoup (Some <$> links) next [] None None None [].

Definition story_soup (headline when : string) : Soup :=
  mkSoup [] None ["First paragraph."; "Second paragraph."]
         (Some headline) (Some "A. Reporter") (Some (Some when)) ["Politics"; "World"].

Definition pages : list (string * Soup) :=
  [ (listing "1", listing_soup [story "c"; story "a"; story "b"] (Some (Some (listing "2"))));
    (listing "2", listing_soup [story "f"; story "d"; story "e"] (Some (Some (listing "3"))));
    (listing "3", listing_soup [story "g"] None);
    (story "a", story_soup "Story A" "last Tuesday");
    (story "b", story_soup "Story B" "2020-11-03T10:00:00");
    (story "c", story_soup "Story C" "2020-11-03T10:00:00");
    (story "d", story_soup "Story D" "2020-11-03T10:00:00");
    (story "e", story_soup "Story E" "2020-11-03T10:00:00") ].

Fixpoint page_at (u : string) (table : list (string * Soup)) : option Soup :=
  match table with
  | [] => None
  | (k, soup) :: rest => if String.eqb k u then Some soup else page_at u rest
  end.

Definition env : Env :=
  mkEnv (λ u, match page_at u pages with Some _ => Some u | None => None end)
        (λ body, default (mkSoup [] None [] None None None []) (page_at body pages))
        (λ d, if String.eqb d "2020-11-03T10:00:00"
              then Some (Datetime 2020 11 3 10 0 0) else None).

(** No state file, no request made, nothing stored yet. *)
Definition boot : Sys := mkSys None None [] [].

(** The crawler of a run with [max_articles = 5] and three articles per
    seed, and what its walk leaves after the first listing page and at
    its end. *)
Definition crawler : Crawler.t := Crawler.__init__ [listing "1"] 5 3.

Definition state_after_page1 : CrawlState :=
  mkCrawlState [story "a"; story "b"; story "c"] [listing "2"].

Definition crawler_after_page1 : Crawler.t :=
  Crawler.mk [listing "2"] 5 3 (list_to_set [story "c"; story "a"; story "b"]).

Definition sys_after_page1 : Sys :=
  mkSys (Some state_after_page1) None [listing "1"; listing "1"] [].

Definition crawler_done : Crawler.t :=
  Crawler.mk [listing "3"] 5 3
    (list_to_set [story "c"; story "a"; story "b"; story "f"; story "d"]).

Definition sys_done : Sys :=
  mkSys (Some state_after_page1) None
        [listing "2"; listing "2"; listing "1"; listing "1"] [].

(** The parser of [story "b"] once [parse] has filled it. *)
Definition parsed_b : ArticleParser.t :=
  ArticleParser.mk
    (mkArticle (story "b") 0
       (Some ("First paragraph." +:+ ArticleParser.newline +:+ "Second paragraph."))
       (Some "Story B") (Some "A. Reporter") (Some (Datetime 2020 11 3 10 0 0))
       ["Politics"; "World"])
    (story "b") 0.

Definition sys_parsed_b : Sys :=
  mkSys None (Some [story "b"]) [story "b"] [].

(** A state file left by an earlier run that had a larger cap. *)
Definition sys_larger_run : Sys :=
  mkSys (Some state_after_page1) None [] [].

(** A config file, with the given count fields. *)
Definition config (total per_seed : json) : list (string * json) :=
  [ ("base_urls", JArr [JStr (listing "1")]);
    ("total_articles_to_find_and_parse", total);
    ("max_number_articles_to_get_from_one_seed", per_seed) ].

End Site.

(** ** Further observations *)

(** The urls that the [CRAWLER_STATE] file holds, none when it is absent. *)
Definition file_urls (s : Sys) : gset string :=
  match crawler_state s with
  | Some status => list_to_set (st_urls status)
  | None => ∅
  end.

(** The urls that the [PARSER_STATE] file records, none when it is absent. *)
Definition recorded (s : Sys) : list string := default [] (parser_state s).

(** The id and url of an article. *)
Definition id_url (a : Article) : nat * string := (article_id_of a, url a).

(** A regular expression that matches nothing, by its shape. *)
Fixpoint re_dead (r : Re.regex) : bool :=
  match r with
  | Re.Empty => true
  | Re.Eps | Re.Byte _ | Re.Star _ => false
  | Re.Cat r1 r2 => re_dead r1 || re_dead r2
  | Re.Alt r1 r2 => re_dead r1 && re_dead r2
  end.

(** The bytes that can start a match of [url_check]: ASCII digits and
    letters, and the lead bytes of the four other letters of [[a-z]]. *)
Definition url_start (c : ascii) : bool :=
  Re.in_range "0" "9" c || Re.in_range "a" "z" c || Re.in_range "A" "Z" c
  || Ascii.eqb "196" c || Ascii.eqb "197" c || Ascii.eqb "226" c.

(** ** A second small site *)

(** One listing page with two stories, both with an ISO 8601 date. *)
Module Digest.

Local Open Scope string_scope.

Definition front : string := "https://digest.example.org/page/1".
Definition story (n : string) : string := "https://digest.example.org/story/" +:+ n.

Definition pages : list (string * Soup) :=
  [ (front, Site.listing_soup [story "y"; story "x"]
              (Some (Some "https://digest.example.org/page/2")));
    (story "x", Site.story_soup "Story X" "2020-11-03T10:00:00");
    (story "y", Site.story_soup "Story Y" "2020-11-03T10:00:00") ].

Definition env : Env :=
  mkEnv (λ u, match Site.page_at u pages with Some _ => Some u | None => None end)
        (λ body, default (mkSoup [] None [] None None None [])
                         (Site.page_at body pages))
        (λ d, if String.eqb d "2020-11-03T10:00:00"
              then Some (Datetime 2020 11 3 10 0 0) else None).

(** The article of a story of this site, once parsed. *)
Definition article (n headline : string) (idx : nat) : Article :=
  mkArticle (story n) idx
    (Some ("First paragraph." +:+ ArticleParser.newline +:+ "Second paragraph."))
    (Some headline) (Some "A. Reporter") (Some (Datetime 2020 11 3 10 0 0))
    ["Politics"; "World"].

(** The crawler and the system after the walk over this site with a
    cap of two. *)
Definition crawler_done : Crawler.t :=
  Crawler.mk ["https://digest.example.org/page/2"] 2 2
             (list_to_set [story "y"; story "x"]).

Definition sys_walked : Sys := mkSys None None [front; front] [].

(** The system after a whole run over this site with a cap of two. *)
Definition sys_done : Sys :=
  mkSys None (Some [story "x"; story "y"])
        [story "y"; story "x"; front; front]
        [article "y" "Story Y" 1; article "x" "Story X" 0].

(** A config with a url that does not match and a count of the wrong type. *)
Definition bad_config : list (string * json) :=
  [ ("base_urls", JArr [JStr (Site.listing "1"); JStr "not a url"]);
    ("total_articles_to_find_and_parse", JStr "5");
    ("max_number_articles_to_get_from_one_seed", JInt 3) ].

(** A config without any url. *)
Definition empty_config : list (string * json) :=
  [ ("base_urls", JArr []);
    ("total_articles_to_find_and_parse", JInt 5);
    ("max_number_articles_to_get_from_one_seed", JInt 3) ].

End Digest.

(** * Properties *)

(** ** Slices and set sizes *)

Lemma length_slice_to_le {A} (l : list A) (n : Z) :
  (length (slice_to l n) ≤ length l)%nat.
Proof.
  unfold slice_to. destruct (0 <=? n); rewrite length_take; lia.
Qed.

Lemma length_slice_to_bound {A} (l : list A) (n : Z) :
  0 <= n → Z.of_nat (length (slice_to l n)) <= n.
Proof.
  intros Hn. unfold slice_to.
  destruct (Z.leb_spec 0 n) as [_|Hlt]; [|lia].
  rewrite length_take. lia.
Qed.

Lemma size_difference_le (X Y : gset string) : (size (X ∖ Y) ≤ size X)%nat.
Proof. apply subseteq_size, subseteq_difference_l. done. Qed.

Lemma size_list_to_set_le (l : list string) :
  (size (list_to_set l : gset string) ≤ length l)%nat.
Proof.
  induction l as [|x l IH].
  - rewrite list_to_set_nil, size_empty. done.
  - rewrite list_to_set_cons, size_union_alt, size_singleton. simpl.
    pose proof (size_difference_le (list_to_set l) {[x]}). lia.
Qed.

Lemma size_update_le (X : gset string) (l : list string) :
  (size (X ∪ list_to_set l) ≤ size X + length l)%nat.
Proof.
  rewrite size_union_alt.
  pose proof (size_list_to_set_le l).
  pose proof (size_difference_le (list_to_set l) X). lia.
Qed.

Lemma size_new_le (X : gset string) (l : list string) :
  (size ((X ∪ list_to_set l) ∖ X) ≤ length l)%nat.
Proof.
  replace ((X ∪ list_to_set l) ∖ X) with (list_to_set l ∖ X : gset string).
  2: { apply set_eq. intros x. rewrite !elem_of_difference, elem_of_union. tauto. }
  pose proof (size_list_to_set_le l).
  pose proof (size_difference_le (list_to_set l) X). lia.
Qed.

(** ** The discovered set stays within its caps *)

Section Caps.

Context (E : Env).

Import Crawler.

Lemma _process_seed_slices self page links :
  _process_seed E self page = Ret links →
  ∃ all_links, links = slice_to (slice_to all_links (max_articles_per_seed self))
                                (max_articles self - len_urls self).
Proof.
  unfold _process_seed, res_bind. intros H.
  destruct (BeautifulSoup E page); [|discriminate].
  destruct (_extract_url a) as [all_links|]; [|discriminate].
  exists all_links. congruence.
Qed.

Lemma _process_seed_global self page links :
  len_urls self <= max_articles self →
  _process_seed E self page = Ret links →
  Z.of_nat (length links) <= max_articles self - len_urls self.
Proof.
  intros Hcap H. apply _process_seed_slices in H as [all_links ->].
  apply length_slice_to_bound. lia.
Qed.

Lemma _process_seed_per_seed self page links :
  0 <= max_articles_per_seed self →
  _process_seed E self page = Ret links →
  Z.of_nat (length links) <= max_articles_per_seed self.
Proof.
  intros Hper H. apply _process_seed_slices in H as [all_links ->].
  pose proof (length_slice_to_le (slice_to all_links (max_articles_per_seed self))
                (max_articles self - len_urls self)).
  pose proof (length_slice_to_bound all_links _ Hper). lia.
Qed.

Lemma urls_update_capped self links :
  len_urls self <= max_articles self →
  Z.of_nat (length links) <= max_articles self - len_urls self →
  len_urls (urls_update self links) <= max_articles (urls_update self links).
Proof.
  unfold len_urls, urls_update. simpl. intros H1 H2.
  pose proof (size_update_le (urls self) links). lia.
Qed.

Lemma find_articles_loop_capped todo self s self' s' :
  len_urls self <= max_articles self →
  find_articles_loop E todo self s = (Ret self', s') →
  len_urls self' <= max_articles self'.
Proof.
  revert self s. induction todo as [|u rest IH]; intros self s Hcap; simpl.
  - unfold ret. intros [= <- <-]. done.
  - unfold bind, fetch_page, lift.
    case_bool_decide.
    + apply IH. done.
    + destruct (_process_seed E self (MBool false)) as [links|] eqn:Hp; [|discriminate].
      pose proof (urls_update_capped self links Hcap
                    (_process_seed_global _ _ _ Hcap Hp)) as Hcap'.
      destruct (_ =? _).
      * unfold ret. intros [= <- <-]. done.
      * apply IH. done.
Qed.

End Caps.

(** ** One call of the recursive walk *)

Section Step.

Context (E : Env).

Import Crawler.

Lemma _load_state_loaded self s :
  CrawlerRecursive._load_state self s = (Ret (loaded self s), s).
Proof.
  unfold CrawlerRecursive._load_state, loaded.
  destruct (crawler_state s); reflexivity.
Qed.

(** Every completed call went through the same stages. *)
Lemma seed_step_Ret self s returned self' s' :
  CrawlerRecursive.seed_step E self s = (Ret (returned, self'), s') →
  ∃ seed rest next body links,
    seed_urls (loaded self s) = seed :: rest ∧
    http_get E seed = Some body ∧
    pagination_next (lxml E body) = Some (Some next) ∧
    _process_seed E (mk (next :: rest) (max_articles self)
                        (max_articles_per_seed self) (urls (loaded self s)))
                  (MStr body) = Ret links ∧
    self' = mk (next :: rest) (max_articles self) (max_articles_per_seed self)
               (urls (loaded self s) ∪ list_to_set links) ∧
    returned = (len_urls self' =? max_articles self') ∧
    s' = after_step s seed
           (if returned then crawler_state s
            else Some (mkCrawlState (sorted (urls self')) (seed_urls self'))).
Proof.
  unfold CrawlerRecursive.seed_step, bind at 1.
  rewrite _load_state_loaded.
  assert (Hmax : max_articles (loaded self s) = max_articles self)
    by (unfold loaded; destruct (crawler_state s); reflexivity).
  assert (Hper : max_articles_per_seed (loaded self s) = max_articles_per_seed self)
    by (unfold loaded; destruct (crawler_state s); reflexivity).
  revert Hmax Hper. generalize (loaded self s) as c. intros c Hmax Hper.
  unfold bind at 1, CrawlerRecursive.get_search_urls.
  destruct (seed_urls c) as [|seed rest] eqn:Hseeds; [discriminate|].
  unfold bind at 1, fetch_page at 1, bind at 1, lift at 1.
  destruct (http_get E seed) as [body|] eqn:Hget; simpl; [|discriminate].
  destruct (pagination_next (lxml E body)) as [[next|]|] eqn:Hnext;
    try (unfold raise; discriminate).
  unfold ret at 1.
  unfold bind at 1, fetch_page, bind at 1, lift.
  rewrite Hget, Hmax, Hper. simpl markup_of.
  destruct (_process_seed E _ (MStr body)) as [links|] eqn:Hlinks; [|discriminate].
  unfold urls_update. simpl.
  destruct (_ =? _) eqn:Hfull.
  - unfold ret. intros [= <- <- <-].
    exists seed, rest, next, body, links. simpl. rewrite Hfull. done.
  - unfold bind, CrawlerRecursive._save_state, ret. simpl.
    intros [= <- <- <-].
    exists seed, rest, next, body, links. simpl. rewrite Hfull. done.
Qed.

(** A call that raises leaves both state files as they were. *)
Lemma seed_step_Raise self s e s' :
  CrawlerRecursive.seed_step E self s = (Raise e, s') →
  e ≠ RecursionError ∧
  crawler_state s' = crawler_state s ∧ parser_state s' = parser_state s.
Proof.
  unfold CrawlerRecursive.seed_step, bind at 1.
  rewrite _load_state_loaded.
  generalize (loaded self s) as c. intros c.
  unfold bind at 1, CrawlerRecursive.get_search_urls.
  destruct (seed_urls c) as [|seed rest] eqn:Hseeds.
  { unfold raise. intros [= <- <-]. done. }
  unfold bind at 1, fetch_page at 1, bind at 1, lift at 1.
  destruct (http_get E seed) as [body|] eqn:Hget; simpl.
  2: { intros [= <- <-]. done. }
  destruct (pagination_next (lxml E body)) as [[next|]|] eqn:Hnext;
    try (unfold raise; intros [= <- <-]; done).
  unfold ret at 1.
  unfold bind at 1, fetch_page, bind at 1, lift.
  rewrite Hget. simpl markup_of.
  destruct (_process_seed E _ (MStr body)) as [links|] eqn:Hlinks.
  2: { intros [= <- <-]. split; [|done].
       unfold _process_seed, res_bind in Hlinks. simpl in Hlinks.
       unfold _extract_url in Hlinks.
       intros ->.
       assert (Hh : ∀ l, hrefs l ≠ Raise RecursionError).
       { induction l as [|[h|] l IH]; simpl; try done.
         unfold res_bind. destruct (hrefs l); congruence. }
       destruct (hrefs (news (lxml E body))) eqn:Hn; [discriminate|].
       apply (Hh (news (lxml E body))). congruence. }
  destruct (_ =? _); unfold bind, CrawlerRecursive._save_state, ret;
    simpl; discriminate.
Qed.

Lemma list_to_set_sorted (X : gset string) : list_to_set (sorted X) = X.
Proof.
  apply set_eq. intros x.
  rewrite elem_of_list_to_set. unfold sorted.
  rewrite merge_sort_Permutation. apply elem_of_elements.
Qed.

Lemma loaded_max self s : max_articles (loaded self s) = max_articles self.
Proof. unfold loaded. destruct (crawler_state s); reflexivity. Qed.

Lemma loaded_per_seed self s :
  max_articles_per_seed (loaded self s) = max_articles_per_seed self.
Proof. unfold loaded. destruct (crawler_state s); reflexivity. Qed.

Lemma loaded_capped self s :
  capped self s → len_urls (loaded self s) <= max_articles self.
Proof.
  intros [Hobj Hfile]. unfold loaded.
  destruct (crawler_state s) as [status|]; [|done].
  unfold len_urls. simpl. by apply Hfile.
Qed.

(** A completed call keeps the caps: the set within [max_articles], the
    file within [max_articles], and the page adds no more links than
    [_process_seed] returned. *)
Lemma seed_step_capped self s returned self' s' :
  capped self s →
  CrawlerRecursive.seed_step E self s = (Ret (returned, self'), s') →
  capped self' s' ∧
  max_articles self' = max_articles self ∧
  max_articles_per_seed self' = max_articles_per_seed self ∧
  urls (loaded self s) ⊆ urls self' ∧
  (0 <= max_articles_per_seed self →
   Z.of_nat (size (urls self' ∖ urls (loaded self s))) <= max_articles_per_seed self).
Proof.
  intros Hcap Hstep.
  pose proof (loaded_capped _ _ Hcap) as Hloaded.
  destruct (seed_step_Ret _ _ _ _ _ Hstep)
    as (seed & rest & next & body & links & Hseeds & Hget & Hnext & Hlinks & -> & Hret & ->).
  set (c := mk (next :: rest) (max_articles self) (max_articles_per_seed self)
               (urls (loaded self s))) in *.
  assert (Hc : len_urls c <= max_articles c) by exact Hloaded.
  pose proof (_process_seed_global E c _ _ Hc Hlinks) as Hglobal.
  pose proof (urls_update_capped c links Hc Hglobal) as Hnew.
  unfold urls_update in Hnew. simpl in Hnew.
  split; [|split; [done|split; [done|split]]].
  - split; [exact Hnew|].
    simpl. intros status. destruct returned.
    + apply Hcap.
    + intros [= <-]. simpl. rewrite list_to_set_sorted. exact Hnew.
  - simpl. apply union_subseteq_l.
  - intros Hper. simpl.
    pose proof (_process_seed_per_seed E c _ _ Hper Hlinks) as Hl.
    pose proof (size_new_le (urls (loaded self s)) links). simpl in Hl. lia.
Qed.

Lemma walked_capped k self s self' s' :
  capped self s →
  walked E k self s = Some (self', s') →
  capped self' s' ∧ max_articles self' = max_articles self ∧
  max_articles_per_seed self' = max_articles_per_seed self.
Proof.
  revert self s. induction k as [|k IH]; intros self s Hcap; simpl.
  - intros [= <- <-]. done.
  - destruct (CrawlerRecursive.seed_step E self s) as [[[[] self1]|] s1] eqn:Hstep;
      try discriminate.
    intros Hw.
    destruct (seed_step_capped _ _ _ _ _ Hcap Hstep) as (Hcap1 & Hmax & Hper & _).
    destruct (IH _ _ Hcap1 Hw) as (? & ? & ?).
    split; [done|]. split; congruence.
Qed.

Lemma find_articles_capped depth self s self' s' :
  capped self s →
  CrawlerRecursive.find_articles E depth self s = (Ret self', s') →
  capped self' s'.
Proof.
  revert self s. induction depth as [|depth IH]; intros self s Hcap; simpl.
  - discriminate.
  - unfold bind.
    destruct (CrawlerRecursive.seed_step E self s) as [[[returned self1]|] s1] eqn:Hstep;
      [|discriminate].
    destruct (seed_step_capped _ _ _ _ _ Hcap Hstep) as (Hcap1 & _).
    destruct returned.
    + unfold ret. intros [= <- <-]. done.
    + apply IH. done.
Qed.

End Step.

(** ** Claims about the seed walk *)

Section Walk.

Context (E : Env).

Import Crawler.

(** C1, as amended. When [max_articles_per_seed] is not negative and
    the walk starts with at most [max_articles] urls in the crawler and
    in the state file, [_process_seed] returns at most
    [min(max_articles_per_seed, max_articles - len(urls))] links, and
    both walks keep [len(urls) <= max_articles]: the loop of [Crawler],
    every call of the recursive walk (which also adds at most
    [max_articles_per_seed] urls), every prefix of it and its result. *)
Theorem discovered_set_within_caps (self : Crawler.t) (s : Sys) :
  0 <= max_articles_per_seed self →
  capped self s →
  (∀ page links,
     _process_seed E self page = Ret links →
     Z.of_nat (length links)
       <= Z.min (max_articles_per_seed self) (max_articles self - len_urls self)) ∧
  (∀ self' s',
     Crawler.find_articles E self s = (Ret self', s') →
     len_urls self' <= max_articles self') ∧
  (∀ returned self' s',
     CrawlerRecursive.seed_step E self s = (Ret (returned, self'), s') →
     capped self' s' ∧
     Z.of_nat (size (urls self' ∖ urls (loaded self s)))
       <= max_articles_per_seed self) ∧
  (∀ k self' s', walked E k self s = Some (self', s') → capped self' s') ∧
  (∀ depth self' s',
     CrawlerRecursive.find_articles E depth self s = (Ret self', s') →
     capped self' s').
Proof.
  intros Hper Hcap. split; [|split; [|split; [|split]]].
  - intros page links Hlinks. apply Z.min_glb.
    + by eapply _process_seed_per_seed.
    + eapply _process_seed_global; [apply Hcap|done].
  - intros self' s'. apply find_articles_loop_capped, Hcap.
  - intros returned self' s' Hstep.
    destruct (seed_step_capped _ _ _ _ _ _ Hcap Hstep) as (? & _ & _ & _ & Hnew).
    split; [done|]. by apply Hnew.
  - intros k self' s' Hw. by eapply walked_capped.
  - intros depth self' s' Hrun. by eapply find_articles_capped.
Qed.

(** C8. A call of the recursive walk whose merge brings the set to
    exactly [max_articles] urls returns on line 131, before
    [_save_state]: the state file is what it was before the call, and
    [find_articles] returns the crawler of that call. *)
Theorem cap_reached_returns_without_saving
    (self self' : Crawler.t) (s s' : Sys) (returned : bool) (depth : nat) :
  CrawlerRecursive.seed_step E self s = (Ret (returned, self'), s') →
  len_urls self' = max_articles self' →
  returned = true ∧
  crawler_state s' = crawler_state s ∧
  CrawlerRecursive.find_articles E (S depth) self s = (Ret self', s').
Proof.
  intros Hstep Hfull.
  destruct (seed_step_Ret _ _ _ _ _ _ Hstep)
    as (seed & rest & next & body & links & _ & _ & _ & _ & Hself & Hret & Hs).
  assert (returned = true) as ->.
  { rewrite Hret. by apply Z.eqb_eq. }
  split; [done|]. split.
  - rewrite Hs. reflexivity.
  - simpl. unfold bind. rewrite Hstep. reflexivity.
Qed.

(** C5, on the code. When the listing page at the cursor has no "next"
    control, [get_search_urls] subscripts [None]: the walk raises
    [TypeError] instead of returning, and the links of that page are
    never extracted. *)
Theorem last_page_raises_TypeError
    (self : Crawler.t) (s : Sys) (seed body : string) (rest : list string)
    (depth : nat) :
  seed_urls (loaded self s) = seed :: rest →
  http_get E seed = Some body →
  pagination_next (lxml E body) = None →
  CrawlerRecursive.find_articles E (S depth) self s
    = (Raise TypeError,
       mkSys (crawler_state s) (parser_state s) (seed :: requests s) (stored s)).
Proof.
  intros Hseeds Hget Hnext.
  simpl. unfold bind at 1, CrawlerRecursive.seed_step, bind at 1.
  rewrite _load_state_loaded.
  unfold bind at 1, CrawlerRecursive.get_search_urls. rewrite Hseeds.
  unfold bind at 1, fetch_page at 1, bind at 1, lift at 1.
  rewrite Hget. simpl. rewrite Hnext. reflexivity.
Qed.

Lemma failed_fetch_skips_seed
    (self : Crawler.t) (s : Sys) (u : string) (rest : list string) :
  http_get E u = None →
  find_articles_loop E (u :: rest) self s
    = find_articles_loop E rest self
        (mkSys (crawler_state s) (parser_state s) (u :: requests s) (stored s)).
Proof.
  intros Hget. simpl. unfold bind, fetch_page. rewrite Hget.
  rewrite bool_decide_eq_true_2 by done. reflexivity.
Qed.

(** C4, on the code. In [Crawler.find_articles] a failed fetch skips the
    seed, but after a successful fetch [page] is [False], not the body:
    [_process_seed] raises [TypeError] out of [find_articles] and no
    link of the body reaches the set. *)
Theorem fetched_body_is_not_processed
    (self : Crawler.t) (s : Sys) (u body : string) (rest : list string) :
  http_get E u = Some body →
  find_articles_loop E (u :: rest) self s
    = (Raise TypeError,
       mkSys (crawler_state s) (parser_state s) (u :: requests s) (stored s)).
Proof.
  intros Hget. simpl. unfold bind, fetch_page. rewrite Hget.
  rewrite bool_decide_eq_false_2 by done. reflexivity.
Qed.

End Walk.

(** ** Resuming the recursive walk *)

Section Resume.

Context (E : Env).

Import Crawler.

Lemma bind_load_state {A} (c : Crawler.t) (k : Crawler.t → M A) (s : Sys) :
  bind (CrawlerRecursive._load_state c) k s = k (loaded c s) s.
Proof. unfold bind. by rewrite _load_state_loaded. Qed.

Lemma seed_step_loaded c1 c2 s :
  loaded c1 s = loaded c2 s →
  CrawlerRecursive.seed_step E c1 s = CrawlerRecursive.seed_step E c2 s.
Proof.
  intros Heq. unfold CrawlerRecursive.seed_step.
  by rewrite !bind_load_state, Heq.
Qed.

Lemma find_articles_loaded depth c1 c2 s :
  loaded c1 s = loaded c2 s →
  CrawlerRecursive.find_articles E depth c1 s
    = CrawlerRecursive.find_articles E depth c2 s.
Proof.
  intros Heq. destruct depth as [|depth]; [reflexivity|].
  simpl. unfold bind. by rewrite (seed_step_loaded c1 c2 s Heq).
Qed.

Lemma loaded_ext c1 c2 s :
  is_Some (crawler_state s) →
  max_articles c1 = max_articles c2 →
  max_articles_per_seed c1 = max_articles_per_seed c2 →
  loaded c1 s = loaded c2 s.
Proof.
  intros [status Hfile] Hmax Hper. unfold loaded. rewrite Hfile.
  by rewrite Hmax, Hper.
Qed.

(** A call that goes on has written the state file, and the crawler it
    passes to the next call keeps the two caps. *)
Lemma seed_step_persisted self s self' s' :
  CrawlerRecursive.seed_step E self s = (Ret (false, self'), s') →
  is_Some (crawler_state s') ∧
  max_articles self' = max_articles self ∧
  max_articles_per_seed self' = max_articles_per_seed self.
Proof.
  intros Hstep.
  destruct (seed_step_Ret _ _ _ _ _ _ Hstep)
    as (seed & rest & next & body & links & _ & _ & _ & _ & -> & _ & ->).
  simpl. eauto.
Qed.

Lemma walked_fields k self s self' s' :
  walked E k self s = Some (self', s') →
  max_articles self' = max_articles self ∧
  max_articles_per_seed self' = max_articles_per_seed self ∧
  (k ≠ O → is_Some (crawler_state s')).
Proof.
  revert self s. induction k as [|k IH]; intros self s; simpl.
  - intros [= <- <-]. done.
  - destruct (CrawlerRecursive.seed_step E self s) as [[[[] self1]|] s1] eqn:Hstep;
      try discriminate.
    intros Hw.
    destruct (seed_step_persisted _ _ _ _ Hstep) as (Hfile & Hmax & Hper).
    destruct (IH _ _ Hw) as (Hmax' & Hper' & Hfile').
    split; [congruence|]. split; [congruence|]. intros _.
    destruct k as [|k]; [|by apply Hfile'].
    simpl in Hw. by injection Hw as <- <-.
Qed.

(** What is in memory after [k] persisting calls is what a new process
    loads from the file. *)
Lemma walked_loaded k self s self' s' :
  walked E k self s = Some (self', s') →
  loaded self s' = loaded self' s'.
Proof.
  intros Hw. destruct (walked_fields _ _ _ _ _ Hw) as (Hmax & Hper & Hfile).
  destruct k as [|k].
  - simpl in Hw. by injection Hw as <- <-.
  - apply loaded_ext; [by apply Hfile|done|done].
Qed.

(** A run that does not exhaust the call stack makes its first [k]
    calls and then runs from the state they left. *)
Lemma find_articles_after_walked k depth self s c s1 r s' :
  walked E k self s = Some (c, s1) →
  CrawlerRecursive.find_articles E depth self s = (r, s') →
  r ≠ Raise RecursionError →
  ∃ d, depth = (k + d)%nat ∧ CrawlerRecursive.find_articles E d c s1 = (r, s').
Proof.
  revert depth self s. induction k as [|k IH]; intros depth self s; simpl.
  - intros [= <- <-] Hrun _. by exists depth.
  - destruct (CrawlerRecursive.seed_step E self s) as [[[[] self1]|] s2] eqn:Hstep;
      try discriminate.
    intros Hw Hrun Hr. destruct depth as [|depth].
    + simpl in Hrun. unfold raise in Hrun. congruence.
    + simpl in Hrun. unfold bind in Hrun. rewrite Hstep in Hrun.
      destruct (IH _ _ _ Hw Hrun Hr) as (d & -> & Hd). by exists d.
Qed.

(** More stack does not change the outcome of a run that fits. *)
Lemma find_articles_deeper d n self s r s' :
  CrawlerRecursive.find_articles E d self s = (r, s') →
  r ≠ Raise RecursionError →
  CrawlerRecursive.find_articles E (n + d) self s = (r, s').
Proof.
  intros Hrun Hr. replace (n + d)%nat with (d + n)%nat by lia.
  revert self s Hrun. induction d as [|d IH]; intros self s; simpl.
  - unfold raise. congruence.
  - unfold bind.
    destruct (CrawlerRecursive.seed_step E self s) as [[[[] self1]|] s1]; try done.
    apply IH.
Qed.

(** C2, as amended. Let an uninterrupted run of the recursive walk
    end within the call stack, that is with an outcome [r] other than
    [RecursionError]. If the process is killed after any [k] of its
    persisting calls and a new process walks again from a new crawler
    over the files left behind, the new run ends with the same
    outcome, hence the same discovered urls. *)
Theorem resumed_walk_same_result
    (seeds : list string) (max per : Z) (depth k : nat)
    (c_k : Crawler.t) (s0 s_k s_final : Sys) (r : res Crawler.t) :
  walked E k (Crawler.__init__ seeds max per) s0 = Some (c_k, s_k) →
  CrawlerRecursive.find_articles E depth (Crawler.__init__ seeds max per) s0
    = (r, s_final) →
  r ≠ Raise RecursionError →
  CrawlerRecursive.find_articles E depth (Crawler.__init__ seeds max per) s_k
    = (r, s_final).
Proof.
  intros Hw Hrun Hr.
  destruct (find_articles_after_walked _ _ _ _ _ _ _ _ Hw Hrun Hr) as (d & -> & Hd).
  apply find_articles_deeper; [|done].
  rewrite (find_articles_loaded d _ c_k s_k); [done|].
  by eapply walked_loaded.
Qed.

End Resume.

(** ** The order of [sorted] *)

Lemma ascii_compare_lt_trans (a b c : ascii) :
  Ascii.compare a b = Lt → Ascii.compare b c = Lt → Ascii.compare a c = Lt.
Proof.
  unfold Ascii.compare. rewrite !N.compare_lt_iff. lia.
Qed.

Lemma string_compare_lt_trans (a b c : string) :
  String.compare a b = Lt → String.compare b c = Lt → String.compare a c = Lt.
Proof.
  revert b c. induction a as [|x a IH]; intros [|y b] [|z c]; simpl; try done.
  destruct (Ascii.compare x y) eqn:Hxy; try done.
  - apply Ascii.compare_eq_iff in Hxy as ->.
    destruct (Ascii.compare y z); try done. apply IH.
  - destruct (Ascii.compare y z) eqn:Hyz; try done.
    + apply Ascii.compare_eq_iff in Hyz as <-. by rewrite Hxy.
    + by rewrite (ascii_compare_lt_trans x y z).
Qed.

Lemma str_le_cases (a b : string) :
  str_le a b ↔ a = b ∨ String.compare a b = Lt.
Proof.
  unfold str_le, String.leb. split.
  - destruct (String.compare a b) eqn:Hab; try done.
    + left. by apply String.compare_eq_iff.
    + by right.
  - intros [-> | ->]; [|done].
    assert (String.compare b b = Eq) as ->; [|done].
    pose proof (String.compare_antisym b b) as H.
    destruct (String.compare b b); done.
Qed.

#[global] Instance str_le_trans : Transitive str_le.
Proof.
  intros a b c. rewrite !str_le_cases.
  intros [-> | Hab] [-> | Hbc]; eauto using string_compare_lt_trans.
Qed.

#[global] Instance str_le_total : Total str_le.
Proof. intros a b. apply String.leb_total. Qed.

Lemma sorted_Permutation (X : gset string) : sorted X ≡ₚ elements X.
Proof. apply merge_sort_Permutation. Qed.

Lemma sorted_StronglySorted (X : gset string) : StronglySorted str_le (sorted X).
Proof. apply StronglySorted_merge_sort; apply _. Qed.

Lemma sorted_NoDup (X : gset string) : NoDup (sorted X).
Proof. rewrite sorted_Permutation. apply NoDup_elements. Qed.

Lemma length_sorted (X : gset string) : length (sorted X) = size X.
Proof. by rewrite sorted_Permutation. Qed.

Lemma elem_of_sorted (X : gset string) (u : string) : u ∈ sorted X ↔ u ∈ X.
Proof. rewrite sorted_Permutation. apply elem_of_elements. Qed.

Lemma StronglySorted_lookup_le {A} (R : relation A) (l : list A) i j x y :
  StronglySorted R l → (i < j)%nat → l !! i = Some x → l !! j = Some y → R x y.
Proof.
  intros Hl. revert i j. induction Hl as [|a l Hl IH Hall]; intros i j Hij Hi Hj.
  - done.
  - destruct j as [|j]; [lia|]. destruct i as [|i]; simpl in *.
    + injection Hi as <-. rewrite Forall_forall in Hall.
      apply Hall. by eapply list_elem_of_lookup_2.
    + apply (IH i j); [lia|done|done].
Qed.

Lemma sorted_ascending (X : gset string) i j u v :
  (i < j)%nat → sorted X !! i = Some u → sorted X !! j = Some v →
  String.ltb u v = true.
Proof.
  intros Hij Hi Hj.
  pose proof (StronglySorted_lookup_le _ _ _ _ _ _ (sorted_StronglySorted X) Hij Hi Hj)
    as Hle.
  apply str_le_cases in Hle as [-> | Hlt].
  - pose proof (NoDup_lookup _ _ _ _ (sorted_NoDup X) Hi Hj). lia.
  - unfold String.ltb. by rewrite Hlt.
Qed.

(** Any ascending list of the same urls is [sorted X]: the result does
    not depend on the order in which the set is traversed. *)
Lemma sorted_unique (X : gset string) (l : list string) :
  l ≡ₚ elements X → StronglySorted str_le l → l = sorted X.
Proof.
  intros Hperm Hl.
  assert (Hp : l ≡ₚ sorted X) by (by rewrite sorted_Permutation).
  pose proof (sorted_StronglySorted X) as Hs.
  revert Hp Hs. generalize (sorted X) as l'. clear Hperm.
  induction Hl as [|a l Hl IH Hall]; intros l' Hp Hs.
  - by apply Permutation_nil_l in Hp.
  - destruct Hs as [|b l' Hs Hall'].
    + by apply Permutation_nil_r in Hp.
    + assert (a = b) as ->.
      { apply String.leb_antisym.
        - assert (b ∈ a :: l) as Hb by (rewrite Hp; left).
          apply elem_of_cons in Hb as [-> | Hb].
          + apply str_le_cases. by left.
          + rewrite Forall_forall in Hall. by apply Hall.
        - assert (a ∈ b :: l') as Ha by (rewrite <- Hp; left).
          apply elem_of_cons in Ha as [-> | Ha].
          + apply str_le_cases. by left.
          + rewrite Forall_forall in Hall'. by apply Hall'. }
      f_equal. apply IH; [|done]. by apply Permutation_cons_inv in Hp.
Qed.

Lemma lookup_enumerate {A} (l : list A) (i : nat) :
  enumerate l !! i = (λ x, (i, x)) <$> l !! i.
Proof. unfold enumerate. apply list_lookup_imap. Qed.

(** ** Parsing articles *)

Section Parse.

Context (E : Env).

Import ArticleParser.

(** The urls that [ArticleParser._load_state] finds recorded. *)
Lemma _load_state_processed s :
  _load_state s = (Ret (list_to_set (default [] (parser_state s))), s).
Proof. unfold _load_state. by destruct (parser_state s). Qed.

Lemma parse_skip self s :
  full_url self ∈ default [] (parser_state s) →
  parse E self s = (Ret self, s).
Proof.
  intros Hin. unfold parse, bind. rewrite _load_state_processed.
  rewrite bool_decide_eq_true_2; [done|]. by apply elem_of_list_to_set.
Qed.

Lemma _fill_meta_keeps self soup self' :
  _fill_article_with_meta_information E self soup = Ret self' →
  full_url self' = full_url self ∧ article_id self' = article_id self ∧
  url (article self') = url (article self) ∧
  article_id_of (article self') = article_id_of (article self).
Proof.
  unfold _fill_article_with_meta_information, res_bind.
  destruct (h1 soup); [|done]. destruct (li_autor soup); [|done].
  destruct (time_entry_date soup) as [[d|]|]; try done.
  destruct (unify_date_format E d); [|done].
  intros [= <-]. done.
Qed.

(** A call of [parse] that does the work makes one request and, when it
    completes, records the url. *)
Lemma parse_work self s r s' :
  full_url self ∉ default [] (parser_state s) →
  parse E self s = (r, s') →
  requests s' = full_url self :: requests s ∧
  crawler_state s' = crawler_state s ∧ stored s' = stored s ∧
  match r with
  | Ret self' =>
      parser_state s' = Some (default [] (parser_state s) ++ [url (article self)]) ∧
      full_url self' = full_url self ∧ article_id self' = article_id self ∧
      url (article self') = url (article self) ∧
      article_id_of (article self') = article_id_of (article self)
  | Raise _ => parser_state s' = parser_state s
  end.
Proof.
  intros Hnew. unfold parse, bind at 1. rewrite _load_state_processed.
  rewrite bool_decide_eq_false_2 by (by rewrite elem_of_list_to_set).
  unfold bind at 1, fetch_page, bind at 1, lift at 1.
  destruct (BeautifulSoup E (markup_of (http_get E (full_url self)))) as [soup|].
  2: { intros [= <- <-]. done. }
  unfold bind at 1, lift.
  destruct (_fill_article_with_meta_information E _ soup) as [self1|] eqn:Hfill.
  2: { intros [= <- <-]. done. }
  apply _fill_meta_keeps in Hfill. simpl in Hfill.
  unfold bind, _save_state, ret. simpl.
  intros [= <- <-]. simpl. destruct Hfill as (-> & -> & -> & ->). done.
Qed.

(** In every case [parse] makes at most the one request for its url. *)
Lemma parse_requests self s r s' :
  parse E self s = (r, s') →
  requests s' = requests s ∨ requests s' = full_url self :: requests s.
Proof.
  intros Hp.
  destruct (decide (full_url self ∈ default [] (parser_state s))) as [Hin|Hnew].
  - rewrite (parse_skip _ _ Hin) in Hp. injection Hp as <- <-. by left.
  - right. by eapply parse_work.
Qed.

(** C3. Once [parse] has completed for a parser made by the
    constructor, its url is recorded; a second call on the same object,
    and a call on any new parser for that url, return at once with the
    object and the system unchanged. A url that is already recorded is
    never fetched, and [parse] followed by [parse] makes at most one
    request for the url. *)
Theorem parse_is_idempotent
    (u : string) (idx : nat) (s s1 : Sys) (p1 : ArticleParser.t) :
  parse E (__init__ u idx) s = (Ret p1, s1) →
  u ∈ default [] (parser_state s1) ∧
  parse E p1 s1 = (Ret p1, s1) ∧
  (∀ idx', parse E (__init__ u idx') s1 = (Ret (__init__ u idx'), s1)) ∧
  (∀ self s0, full_url self ∈ default [] (parser_state s0) →
     parse E self s0 = (Ret self, s0)) ∧
  (∀ r s2, bind (parse E (__init__ u idx)) (parse E) s = (r, s2) →
     requests s2 = requests s ∨ requests s2 = u :: requests s).
Proof.
  intros Hp.
  assert (Hrec : u ∈ default [] (parser_state s1) ∧ full_url p1 = u).
  { destruct (decide (u ∈ default [] (parser_state s))) as [Hin|Hnew].
    - rewrite (parse_skip (__init__ u idx) s Hin) in Hp. by injection Hp as <- <-.
    - destruct (parse_work (__init__ u idx) s _ _ Hnew Hp) as (_ & _ & _ & Hst & Hu & _).
      simpl in *. rewrite Hst. simpl. split; [|done].
      apply elem_of_app. right. by left. }
  destruct Hrec as [Hrec Hp1].
  split; [done|]. split; [|split; [|split]].
  - apply parse_skip. by rewrite Hp1.
  - intros idx'. by apply parse_skip.
  - apply parse_skip.
  - intros r s2. unfold bind. rewrite Hp.
    rewrite parse_skip by (by rewrite Hp1). intros [= <- <-].
    by apply (parse_requests _ _ _ _ Hp).
Qed.

(** A date that [fromisoformat] rejects makes [parse] raise
    [ValueError] after the fetch and before [_save_state]. *)
Lemma parse_bad_date self s body headline byline when :
  full_url self ∉ default [] (parser_state s) →
  http_get E (full_url self) = Some body →
  h1 (lxml E body) = Some headline →
  li_autor (lxml E body) = Some byline →
  time_entry_date (lxml E body) = Some (Some when) →
  fromisoformat E when = None →
  parse E self s
    = (Raise ValueError,
       mkSys (crawler_state s) (parser_state s) (full_url self :: requests s) (stored s)).
Proof.
  intros Hnew Hget Hh Ha Ht Hd. unfold parse, bind at 1.
  rewrite _load_state_processed.
  rewrite bool_decide_eq_false_2 by (by rewrite elem_of_list_to_set).
  unfold bind at 1, fetch_page, bind at 1, lift at 1.
  rewrite Hget. simpl.
  unfold bind, lift, _fill_article_with_meta_information, res_bind, unify_date_format.
  rewrite Hh, Ha, Ht, Hd. reflexivity.
Qed.

Lemma parse_phase_app items1 items2 s :
  parse_phase E (items1 ++ items2) s
  = match parse_phase E items1 s with
    | (Ret _, s1) => parse_phase E items2 s1
    | (Raise e, s1) => (Raise e, s1)
    end.
Proof.
  revert s. induction items1 as [|[idx u] items1 IH]; intros s; simpl.
  - reflexivity.
  - unfold bind.
    destruct (parse E (__init__ u idx) s) as [[p|e] s1]; [|reflexivity].
    unfold save. apply IH.
Qed.

(** C7, as amended. An unparsable publication date makes [parse] raise
    [ValueError], and nothing in the loop of [main] catches it: the
    parse phase ends there. The articles before it stay stored and
    recorded, the url itself is not recorded, and the remaining urls
    are neither requested nor parsed. *)
Theorem unparsable_date_aborts_parse_phase
    (before rest : list (nat * string)) (idx : nat) (u : string) (s s1 : Sys)
    (body headline byline when : string) :
  parse_phase E before s = (Ret tt, s1) →
  u ∉ default [] (parser_state s1) →
  http_get E u = Some body →
  h1 (lxml E body) = Some headline →
  li_autor (lxml E body) = Some byline →
  time_entry_date (lxml E body) = Some (Some when) →
  fromisoformat E when = None →
  parse_phase E (before ++ (idx, u) :: rest) s
    = (Raise ValueError,
       mkSys (crawler_state s1) (parser_state s1) (u :: requests s1) (stored s1)).
Proof.
  intros Hbefore Hnew Hget Hh Ha Ht Hd.
  rewrite parse_phase_app, Hbefore. simpl.
  unfold bind at 1.
  by rewrite (parse_bad_date (__init__ u idx) s1 body headline byline when).
Qed.

(** The articles that a completed parse phase stored carry the ids and
    urls of its items, in order. *)
Lemma parse_phase_stored items s s' :
  parse_phase E items s = (Ret tt, s') →
  (λ a, (article_id_of a, url a)) <$> stored s'
  = reverse items ++ ((λ a, (article_id_of a, url a)) <$> stored s).
Proof.
  revert s. induction items as [|[idx u] items IH]; intros s; simpl.
  - unfold ret. by intros [= <-].
  - unfold bind at 1.
    destruct (parse E (__init__ u idx) s) as [[p|e] s1] eqn:Hp; [|done].
    unfold bind at 1, save. simpl. intros Hrest.
    rewrite (IH _ Hrest). simpl. rewrite reverse_cons, <- app_assoc. simpl.
    assert (article_id_of (article p) = idx ∧ url (article p) = u ∧ stored s1 = stored s)
      as (-> & -> & ->); [|done].
    destruct (decide (u ∈ default [] (parser_state s))) as [Hin|Hnew].
    + rewrite (parse_skip (__init__ u idx) s Hin) in Hp. by injection Hp as <- <-.
    + destruct (parse_work (__init__ u idx) s _ _ Hnew Hp)
        as (_ & _ & Hst & _ & _ & _ & Hu & Hid). done.
Qed.

(** However the parse phase ends, the articles it stored carry the ids
    and urls of the first [n] items in order; it completed when [n] is
    the number of items, and otherwise item [n] is the one whose page
    was requested last. *)
Lemma parse_phase_prefix items s r s' :
  parse_phase E items s = (r, s') →
  ∃ n, (n ≤ length items)%nat ∧
    id_url <$> stored s' = reverse (take n items) ++ (id_url <$> stored s) ∧
    match r with
    | Ret _ => n = length items
    | Raise _ => ∃ idx u, items !! n = Some (idx, u) ∧ head (requests s') = Some u
    end.
Proof.
  revert s. induction items as [|[idx u] items IH]; intros s; simpl.
  - unfold ret. intros [= <- <-]. exists O. done.
  - unfold bind at 1.
    destruct (parse E (__init__ u idx) s) as [[p|e] s1] eqn:Hp.
    + unfold bind at 1, save. simpl. intros Hrest.
      destruct (IH _ Hrest) as (n & Hn & Hst & Hr). simpl in Hst.
      assert (id_url (article p) = (idx, u) ∧ stored s1 = stored s) as [Hid Hs1].
      { destruct (decide (u ∈ default [] (parser_state s))) as [Hin|Hnew].
        - rewrite (parse_skip (__init__ u idx) s Hin) in Hp. by injection Hp as <- <-.
        - destruct (parse_work (__init__ u idx) s _ _ Hnew Hp)
            as (_ & _ & Hs1 & _ & _ & _ & Hu & Hi).
          unfold id_url. simpl in Hu, Hi. by rewrite Hu, Hi. }
      exists (S n). split; [lia|]. split.
      * rewrite Hst, Hid, Hs1. simpl. by rewrite reverse_cons, <- app_assoc.
      * destruct r as [[]|e']; [simpl; by rewrite Hr | exact Hr].
    + intros [= <- <-]. exists O. split; [lia|].
      destruct (decide (u ∈ default [] (parser_state s))) as [Hin|Hnew].
      * rewrite (parse_skip (__init__ u idx) s Hin) in Hp. discriminate.
      * destruct (parse_work (__init__ u idx) s _ _ Hnew Hp) as (Hreq & _ & Hs1 & _).
        simpl in Hreq. rewrite Hs1, Hreq. split; [done|]. by exists idx, u.
Qed.

End Parse.

(** C9. After the walk has returned, [main] runs its loop over
    [enumerate(sorted(crawler.urls))] for the urls that the walk
    returned. However the run ends, the articles it stored carry the
    ids [0 .. n-1] with the [n] first urls in ascending order; a
    completed run stored one for every url, and a run that raised was
    at the url with id [n], the one requested last. The item with id
    [i] is the [i]-th url in ascending order, every later item has a
    strictly greater url, and any ascending listing of the set is that
    same list. *)
Theorem sequence_ids_follow_sorted_order
    (E : Env) (seeds : list string) (max per : Z) (depth : nat)
    (final : Crawler.t) (s s1 s' : Sys) (r : res unit) :
  CrawlerRecursive.find_articles E depth (Crawler.__init__ seeds max per) s
    = (Ret final, s1) →
  main E seeds max per depth s = (r, s') →
  ∃ n,
    (n ≤ size (Crawler.urls final))%nat ∧
    id_url <$> stored s'
      = reverse (take n (enumerate (sorted (Crawler.urls final))))
          ++ (id_url <$> stored s1) ∧
    match r with
    | Ret _ => n = size (Crawler.urls final)
    | Raise _ =>
        ∃ u, sorted (Crawler.urls final) !! n = Some u ∧
             head (requests s') = Some u
    end ∧
    (∀ i, (i < size (Crawler.urls final))%nat →
       ∃ u, u ∈ Crawler.urls final ∧
            sorted (Crawler.urls final) !! i = Some u ∧
            enumerate (sorted (Crawler.urls final)) !! i = Some (i, u) ∧
            ∀ j v, (i < j)%nat → sorted (Crawler.urls final) !! j = Some v →
                   String.ltb u v = true) ∧
    (∀ l, l ≡ₚ elements (Crawler.urls final) → StronglySorted str_le l →
          l = sorted (Crawler.urls final)).
Proof.
  intros Hwalk. unfold main, bind. rewrite Hwalk. intros Hparse.
  destruct (parse_phase_prefix E _ _ _ _ Hparse) as (n & Hn & Hst & Hr).
  unfold enumerate in Hn. rewrite length_imap, length_sorted in Hn.
  exists n. split; [done|]. split; [done|]. split; [|split].
  - destruct r as [[]|e].
    + rewrite Hr. unfold enumerate. by rewrite length_imap, length_sorted.
    + destruct Hr as (idx & u & Hitem & Hreq). exists u. split; [|done].
      rewrite lookup_enumerate in Hitem.
      destruct (sorted (Crawler.urls final) !! n); [|done].
      simpl in Hitem. congruence.
  - intros i Hi. rewrite <- length_sorted in Hi.
    destruct (lookup_lt_is_Some_2 _ _ Hi) as [u Hu].
    exists u. split; [|split; [done|split]].
    + apply elem_of_sorted. by eapply list_elem_of_lookup_2.
    + by rewrite lookup_enumerate, Hu.
    + intros j v Hij Hv. by eapply sorted_ascending.
  - apply sorted_unique.
Qed.

(** ** Config validation *)

Section Config.

Local Open Scope string_scope.

(** [validate_config] on a dict whose [base_urls] is a list and that has
    a total count: the checks in the order of the [checks] tuple, then
    the lookup of the third key. *)
Lemma validate_config_dict (members : list (string * json)) (urls : list json)
    (total : json) :
  assoc "base_urls" members = Some (JArr urls) →
  assoc "total_articles_to_find_and_parse" members = Some total →
  validate_config (JObj members)
  = if negb (forallb (λ x, Re.match_ url_check (py_str x)) urls)
    then Raise IncorrectURLError
    else if negb (isinstance_int total) then Raise IncorrectNumberOfArticlesError
    else if negb (in_count_range total) then Raise NumberOfArticlesOutOfRangeError
    else match assoc "max_number_articles_to_get_from_one_seed" members with
         | Some per_seed => Ret (JArr urls, total, per_seed)
         | None => Raise UnknownConfigError
         end.
Proof.
  intros Hbase Htotal.
  unfold validate_config, validate_config_try, subscript, res_bind.
  rewrite Htotal, Hbase. simpl py_iter. cbv iota beta.
  destruct (forallb _ urls); destruct (isinstance_int total);
    destruct (in_count_range total); try reflexivity.
  simpl.
  destruct (assoc "max_number_articles_to_get_from_one_seed" members); reflexivity.
Qed.

(** C6. In a config whose other fields pass, a total count of [0] or
    [100001] raises [NumberOfArticlesOutOfRangeError] and the string
    ["5"] raises [IncorrectNumberOfArticlesError]; [base_urls] equal to
    [["not a url"]] raises [IncorrectURLError]; and when the three
    checks pass, the values of the three keys are returned. *)
Theorem validate_config_cases (members : list (string * json))
    (urls : list json) (total : json) :
  assoc "base_urls" members = Some (JArr urls) →
  assoc "total_articles_to_find_and_parse" members = Some total →
  (urls = [JStr "not a url"] →
   validate_config (JObj members) = Raise IncorrectURLError) ∧
  (forallb (λ x, Re.match_ url_check (py_str x)) urls = true →
   (total = JInt 0 ∨ total = JInt 100001 →
    validate_config (JObj members) = Raise NumberOfArticlesOutOfRangeError) ∧
   (total = JStr "5" →
    validate_config (JObj members) = Raise IncorrectNumberOfArticlesError) ∧
   (isinstance_int total = true → in_count_range total = true →
    ∀ per_seed,
      assoc "max_number_articles_to_get_from_one_seed" members = Some per_seed →
      validate_config (JObj members) = Ret (JArr urls, total, per_seed))).
Proof.
  intros Hbase Htotal.
  rewrite (validate_config_dict members urls total Hbase Htotal).
  split.
  - intros ->. reflexivity.
  - intros ->. simpl. split; [|split].
    + intros [-> | ->]; reflexivity.
    + intros ->. reflexivity.
    + intros -> -> per_seed ->. reflexivity.
Qed.

(** C10. With urls that match and an integer total count in
    [(0, 100000]], [validate_config] returns whatever value the key
    [max_number_articles_to_get_from_one_seed] has, of any type and
    sign, and raises [UnknownConfigError] exactly when the key is
    missing. *)
Theorem per_seed_count_is_not_checked (members : list (string * json))
    (urls : list json) (n : Z) :
  assoc "base_urls" members = Some (JArr urls) →
  forallb (λ x, Re.match_ url_check (py_str x)) urls = true →
  assoc "total_articles_to_find_and_parse" members = Some (JInt n) →
  0 < n <= 100000 →
  validate_config (JObj members)
  = match assoc "max_number_articles_to_get_from_one_seed" members with
    | Some per_seed => Ret (JArr urls, JInt n, per_seed)
    | None => Raise UnknownConfigError
    end.
Proof.
  intros Hbase Hurls Htotal Hn.
  rewrite (validate_config_dict members urls (JInt n) Hbase Htotal), Hurls.
  simpl. destruct (Z.ltb_spec 0 n); [|lia]. destruct (Z.leb_spec n 100000); [|lia].
  reflexivity.
Qed.

End Config.

(** ** The claims on the small site *)

Section OnSite.

Import Site.

Local Open Scope string_scope.

(** The scenario of two listing pages with three links each and a cap
    of five: the first page gives its three links, the second only two,
    and the walk returns without advancing the persisted cursor. *)
Example two_pages_cap_five :
  CrawlerRecursive.find_articles env 2 crawler boot = (Ret crawler_done, sys_done) ∧
  walked env 1 crawler boot = Some (crawler_after_page1, sys_after_page1) ∧
  Crawler.len_urls crawler_after_page1 = 3 ∧
  Crawler.len_urls crawler_done = 5.
Proof. repeat split; vm_compute; reflexivity. Qed.

Lemma discovered_set_within_caps_witness :
  0 <= Crawler.max_articles_per_seed crawler ∧
  capped crawler boot ∧
  (∀ depth self' s',
     CrawlerRecursive.find_articles env depth crawler boot = (Ret self', s') →
     capped self' s').
Proof.
  assert (H1 : 0 <= Crawler.max_articles_per_seed crawler) by (simpl; lia).
  assert (H2 : capped crawler boot).
  { split; [vm_compute; discriminate|]. simpl. discriminate. }
  split; [exact H1|]. split; [exact H2|].
  apply (discovered_set_within_caps env crawler boot H1 H2).
Defined.

(** C1 as stated fails. With [max_articles_per_seed = -1] the first
    slice drops the last link of the page instead of all of them, so
    [_process_seed] returns two links, more than the minimum of the two
    bounds; and over a state file that holds three urls, a crawler with
    [max_articles = 2] ends its first call with five. *)
Lemma caps_exceeded :
  Crawler._process_seed env (Crawler.__init__ [listing "1"] 5 (-1)) (MStr (listing "1"))
    = Ret [story "c"; story "a"] ∧
  ¬ (Z.of_nat (length [story "c"; story "a"])
       <= Z.min (-1) (5 - Crawler.len_urls (Crawler.__init__ [listing "1"] 5 (-1)))) ∧
  ∃ self' s',
    CrawlerRecursive.seed_step env (Crawler.__init__ [listing "1"] 2 3) sys_larger_run
      = (Ret (false, self'), s') ∧
    Crawler.max_articles self' = 2 ∧ Crawler.len_urls self' = 5.
Proof.
  split; [vm_compute; reflexivity|]. split; [vm_compute; intros H; by apply H|].
  eexists _, _. split; [vm_compute; reflexivity|]. split; vm_compute; reflexivity.
Qed.

(** C2 as stated fails. With one nested call available the
    uninterrupted run persists the first page and then raises
    [RecursionError], while a new process over the files it left makes
    the remaining call and returns the five urls. *)
Lemma resumed_walk_ends_where_one_run_cannot :
  walked env 1 (Crawler.__init__ [listing "1"] 5 3) boot
    = Some (crawler_after_page1, sys_after_page1) ∧
  fst (CrawlerRecursive.find_articles env 1 (Crawler.__init__ [listing "1"] 5 3) boot)
    = Raise RecursionError ∧
  CrawlerRecursive.find_articles env 1 (Crawler.__init__ [listing "1"] 5 3)
    sys_after_page1
    = (Ret crawler_done, sys_done).
Proof. repeat split; vm_compute; reflexivity. Qed.

Lemma resumed_walk_same_result_witness :
  walked env 1 (Crawler.__init__ [listing "1"] 5 3) boot
    = Some (crawler_after_page1, sys_after_page1) ∧
  CrawlerRecursive.find_articles env 2 (Crawler.__init__ [listing "1"] 5 3) boot
    = (Ret crawler_done, sys_done) ∧
  Ret crawler_done ≠ Raise RecursionError ∧
  CrawlerRecursive.find_articles env 2 (Crawler.__init__ [listing "1"] 5 3) sys_after_page1
    = (Ret crawler_done, sys_done).
Proof.
  assert (H1 : walked env 1 (Crawler.__init__ [listing "1"] 5 3) boot
               = Some (crawler_after_page1, sys_after_page1))
    by (vm_compute; reflexivity).
  assert (H2 : CrawlerRecursive.find_articles env 2 (Crawler.__init__ [listing "1"] 5 3) boot
               = (Ret crawler_done, sys_done))
    by (vm_compute; reflexivity).
  assert (H3 : Ret crawler_done ≠ Raise RecursionError) by discriminate.
  split; [exact H1|]. split; [exact H2|]. split; [exact H3|].
  exact (resumed_walk_same_result env _ _ _ _ _ _ _ _ _ _ H1 H2 H3).
Defined.

Lemma parse_is_idempotent_witness :
  ArticleParser.parse env (ArticleParser.__init__ (story "b") 0) boot
    = (Ret parsed_b, sys_parsed_b) ∧
  ArticleParser.parse env parsed_b sys_parsed_b = (Ret parsed_b, sys_parsed_b) ∧
  (∀ idx', ArticleParser.parse env (ArticleParser.__init__ (story "b") idx') sys_parsed_b
           = (Ret (ArticleParser.__init__ (story "b") idx'), sys_parsed_b)).
Proof.
  assert (H : ArticleParser.parse env (ArticleParser.__init__ (story "b") 0) boot
              = (Ret parsed_b, sys_parsed_b)) by (vm_compute; reflexivity).
  split; [exact H|].
  destruct (parse_is_idempotent env _ _ _ _ _ H) as (_ & H2 & H3 & _).
  split; [exact H2 | exact H3].
Defined.

Lemma fetched_body_is_not_processed_witness :
  http_get env (listing "1") = Some (listing "1") ∧
  Crawler.find_articles env crawler boot
    = (Raise TypeError, mkSys None None [listing "1"] []).
Proof.
  assert (H : http_get env (listing "1") = Some (listing "1")) by reflexivity.
  split; [exact H|].
  exact (fetched_body_is_not_processed env crawler boot _ _ [] H).
Defined.

Lemma last_page_raises_TypeError_witness :
  Crawler.seed_urls (loaded (Crawler.__init__ [listing "3"] 5 3) boot) = [listing "3"] ∧
  http_get env (listing "3") = Some (listing "3") ∧
  pagination_next (lxml env (listing "3")) = None ∧
  CrawlerRecursive.find_articles env 1 (Crawler.__init__ [listing "3"] 5 3) boot
    = (Raise TypeError, mkSys None None [listing "3"] []).
Proof.
  assert (H1 : Crawler.seed_urls (loaded (Crawler.__init__ [listing "3"] 5 3) boot)
               = [listing "3"]) by reflexivity.
  assert (H2 : http_get env (listing "3") = Some (listing "3")) by reflexivity.
  assert (H3 : pagination_next (lxml env (listing "3")) = None) by reflexivity.
  split; [exact H1|]. split; [exact H2|]. split; [exact H3|].
  exact (last_page_raises_TypeError env _ boot _ _ _ 0 H1 H2 H3).
Defined.

Lemma cap_reached_returns_without_saving_witness :
  CrawlerRecursive.seed_step env crawler sys_after_page1
    = (Ret (true, crawler_done), sys_done) ∧
  Crawler.len_urls crawler_done = Crawler.max_articles crawler_done ∧
  crawler_state sys_done = crawler_state sys_after_page1.
Proof.
  assert (H1 : CrawlerRecursive.seed_step env crawler sys_after_page1
               = (Ret (true, crawler_done), sys_done)) by (vm_compute; reflexivity).
  assert (H2 : Crawler.len_urls crawler_done = Crawler.max_articles crawler_done)
    by (vm_compute; reflexivity).
  split; [exact H1|]. split; [exact H2|].
  exact (proj1 (proj2 (cap_reached_returns_without_saving env _ _ _ _ _ 0 H1 H2))).
Defined.

End OnSite.

Section OnSiteParse.

Import Site.

Local Open Scope string_scope.

(** C7 as stated fails. In a run over the site, [story "a"] is the
    first url in sorted order and its date is not ISO 8601:
    [ValueError] leaves [main], and no other discovered url is
    requested, recorded or stored. *)
Lemma bad_date_aborts_the_run :
  main env [listing "1"] 5 3 2 boot
    = (Raise ValueError,
       mkSys (Some state_after_page1) None
             [story "a"; listing "2"; listing "2"; listing "1"; listing "1"] []) ∧
  sorted (Crawler.urls crawler_done)
    = [story "a"; story "b"; story "c"; story "d"; story "f"].
Proof. split; vm_compute; reflexivity. Qed.

Lemma unparsable_date_aborts_parse_phase_witness :
  parse_phase env [(0%nat, story "b")] boot
    = (Ret tt, mkSys None (Some [story "b"]) [story "b"] [ArticleParser.article parsed_b]) ∧
  (story "a" ∉ [story "b"]) ∧
  http_get env (story "a") = Some (story "a") ∧
  h1 (lxml env (story "a")) = Some "Story A" ∧
  li_autor (lxml env (story "a")) = Some "A. Reporter" ∧
  time_entry_date (lxml env (story "a")) = Some (Some "last Tuesday") ∧
  fromisoformat env "last Tuesday" = None ∧
  parse_phase env ([(0%nat, story "b")] ++ (1%nat, story "a") :: [(2%nat, story "c")]) boot
    = (Raise ValueError,
       mkSys None (Some [story "b"]) [story "a"; story "b"]
             [ArticleParser.article parsed_b]).
Proof.
  assert (H1 : parse_phase env [(0%nat, story "b")] boot
               = (Ret tt, mkSys None (Some [story "b"]) [story "b"]
                               [ArticleParser.article parsed_b]))
    by (vm_compute; reflexivity).
  assert (H2 : story "a" ∉ [story "b"]).
  { intros Hin. apply list_elem_of_singleton in Hin. discriminate. }
  assert (H3 : http_get env (story "a") = Some (story "a")) by reflexivity.
  assert (H4 : h1 (lxml env (story "a")) = Some "Story A") by reflexivity.
  assert (H5 : li_autor (lxml env (story "a")) = Some "A. Reporter") by reflexivity.
  assert (H6 : time_entry_date (lxml env (story "a")) = Some (Some "last Tuesday"))
    by reflexivity.
  assert (H7 : fromisoformat env "last Tuesday" = None) by reflexivity.
  repeat (split; [assumption|]).
  exact (unparsable_date_aborts_parse_phase env _ [(2%nat, story "c")] 1 _ _ _ _ _ _ _
           H1 H2 H3 H4 H5 H6 H7).
Defined.

Lemma sequence_ids_follow_sorted_order_witness :
  CrawlerRecursive.find_articles Digest.env 1 (Crawler.__init__ [Digest.front] 2 2) boot
    = (Ret Digest.crawler_done, Digest.sys_walked) ∧
  main Digest.env [Digest.front] 2 2 1 boot = (Ret tt, Digest.sys_done) ∧
  ∃ n,
    (n ≤ size (Crawler.urls Digest.crawler_done))%nat ∧
    id_url <$> stored Digest.sys_done
      = (reverse (take n (enumerate (sorted (Crawler.urls Digest.crawler_done))))
           ++ (id_url <$> stored Digest.sys_walked))%list ∧
    n = size (Crawler.urls Digest.crawler_done).
Proof.
  assert (H1 : CrawlerRecursive.find_articles Digest.env 1
                 (Crawler.__init__ [Digest.front] 2 2) boot
               = (Ret Digest.crawler_done, Digest.sys_walked))
    by (vm_compute; reflexivity).
  assert (H2 : main Digest.env [Digest.front] 2 2 1 boot = (Ret tt, Digest.sys_done))
    by (vm_compute; reflexivity).
  split; [exact H1|]. split; [exact H2|].
  destruct (sequence_ids_follow_sorted_order _ _ _ _ _ _ _ _ _ _ H1 H2)
    as (n & Hn & Hst & Hr & _).
  exists n. split; [exact Hn|]. split; [exact Hst | exact Hr].
Defined.

(** The run over the first site stops at the url with id [0], whose
    date is not ISO 8601, having stored nothing. *)
Example ids_of_a_run_that_raises :
  CrawlerRecursive.find_articles env 2 (Crawler.__init__ [listing "1"] 5 3) boot
    = (Ret crawler_done, sys_done) ∧
  fst (main env [listing "1"] 5 3 2 boot) = Raise ValueError ∧
  sorted (Crawler.urls crawler_done) !! 0%nat = Some (story "a") ∧
  head (requests (snd (main env [listing "1"] 5 3 2 boot))) = Some (story "a") ∧
  stored (snd (main env [listing "1"] 5 3 2 boot)) = [].
Proof. repeat split; vm_compute; reflexivity. Qed.

Example ids_on_the_site :
  enumerate (sorted (Crawler.urls crawler_after_page1))
    = [(0%nat, story "a"); (1%nat, story "b"); (2%nat, story "c")].
Proof. vm_compute. reflexivity. Qed.

Lemma validate_config_cases_witness :
  assoc "base_urls" (config (JInt 0) (JInt 3)) = Some (JArr [JStr (listing "1")]) ∧
  assoc "total_articles_to_find_and_parse" (config (JInt 0) (JInt 3)) = Some (JInt 0) ∧
  validate_config (JObj (config (JInt 0) (JInt 3))) = Raise NumberOfArticlesOutOfRangeError.
Proof.
  assert (H1 : assoc "base_urls" (config (JInt 0) (JInt 3))
               = Some (JArr [JStr (listing "1")])) by reflexivity.
  assert (H2 : assoc "total_articles_to_find_and_parse" (config (JInt 0) (JInt 3))
               = Some (JInt 0)) by reflexivity.
  split; [exact H1|]. split; [exact H2|].
  destruct (validate_config_cases _ _ _ H1 H2) as [_ Hcases].
  destruct (Hcases ltac:(vm_compute; reflexivity)) as [Hrange _].
  apply Hrange. by left.
Defined.

(** The four failing configs of the specification and a passing one. *)
Example validate_config_on_the_site :
  validate_config (JObj (config (JInt 0) (JInt 3)))
    = Raise NumberOfArticlesOutOfRangeError ∧
  validate_config (JObj (config (JInt 100001) (JInt 3)))
    = Raise NumberOfArticlesOutOfRangeError ∧
  validate_config (JObj (config (JStr "5") (JInt 3)))
    = Raise IncorrectNumberOfArticlesError ∧
  validate_config (JObj [ ("base_urls", JArr [JStr "not a url"]);
                          ("total_articles_to_find_and_parse", JInt 5);
                          ("max_number_articles_to_get_from_one_seed", JInt 3) ])
    = Raise IncorrectURLError ∧
  validate_config (JObj (config (JInt 5) (JInt 3)))
    = Ret (JArr [JStr (listing "1")], JInt 5, JInt 3).
Proof. repeat split; vm_compute; reflexivity. Qed.

Lemma per_seed_count_is_not_checked_witness :
  assoc "base_urls" (config (JInt 5) (JStr "many")) = Some (JArr [JStr (listing "1")]) ∧
  forallb (λ x, Re.match_ url_check (py_str x)) [JStr (listing "1")] = true ∧
  assoc "total_articles_to_find_and_parse" (config (JInt 5) (JStr "many"))
    = Some (JInt 5) ∧
  0 < 5 <= 100000 ∧
  validate_config (JObj (config (JInt 5) (JStr "many")))
    = Ret (JArr [JStr (listing "1")], JInt 5, JStr "many").
Proof.
  assert (H1 : assoc "base_urls" (config (JInt 5) (JStr "many"))
               = Some (JArr [JStr (listing "1")])) by reflexivity.
  assert (H2 : forallb (λ x, Re.match_ url_check (py_str x)) [JStr (listing "1")] = true)
    by (vm_compute; reflexivity).
  assert (H3 : assoc "total_articles_to_find_and_parse" (config (JInt 5) (JStr "many"))
               = Some (JInt 5)) by reflexivity.
  assert (H4 : 0 < 5 <= 100000) by lia.
  repeat (split; [assumption|]).
  exact (per_seed_count_is_not_checked _ _ _ H1 H2 H3 H4).
Defined.

(** A negative count passes validation unchanged as well. *)
Example negative_per_seed_passes :
  validate_config (JObj (config (JInt 5) (JInt (-1))))
    = Ret (JArr [JStr (listing "1")], JInt 5, JInt (-1)).
Proof. vm_compute. reflexivity. Qed.

End OnSiteParse.

(** * Further properties of the code *)

(** ** The crawl state file *)

Section CrawlStateFile.

Context (E : Env).

Import Crawler.

(** X1. [_load_state] after [_save_state] gives back the seed list and
    the url set that were saved, whatever object loads them; only the
    two caps come from the loading object. *)
Theorem save_then_load_round_trip (self other : Crawler.t) (s : Sys) :
  bind (CrawlerRecursive._save_state self)
       (λ _, CrawlerRecursive._load_state other) s
  = (Ret (mk (seed_urls self) (max_articles other) (max_articles_per_seed other)
             (urls self)),
     mkSys (Some (mkCrawlState (sorted (urls self)) (seed_urls self)))
           (parser_state s) (requests s) (stored s)).
Proof.
  unfold bind, CrawlerRecursive._save_state, CrawlerRecursive._load_state. simpl.
  by rewrite list_to_set_sorted.
Qed.

(** X2. The file that [_save_state] writes lists every discovered url
    once, in ascending order, next to the seed list; the other parts of
    the system are not touched. *)
Theorem saved_state_is_sorted_set (self : Crawler.t) (s : Sys) :
  ∃ status,
    CrawlerRecursive._save_state self s
      = (Ret tt, mkSys (Some status) (parser_state s) (requests s) (stored s)) ∧
    st_seed status = seed_urls self ∧
    StronglySorted str_le (st_urls status) ∧
    NoDup (st_urls status) ∧
    length (st_urls status) = size (urls self) ∧
    ∀ u, u ∈ st_urls status ↔ u ∈ urls self.
Proof.
  exists (mkCrawlState (sorted (urls self)) (seed_urls self)). simpl.
  split; [reflexivity|]. split; [reflexivity|].
  split; [apply sorted_StronglySorted|]. split; [apply sorted_NoDup|].
  split; [apply length_sorted|]. apply elem_of_sorted.
Qed.

(** Whatever a call of the recursive walk does, it leaves the parser
    state and the stored articles alone, only adds requests, and only
    adds urls to the state file. *)
Lemma seed_step_frame self s r s' :
  CrawlerRecursive.seed_step E self s = (r, s') →
  parser_state s' = parser_state s ∧ stored s' = stored s ∧
  requests s `suffix_of` requests s' ∧
  file_urls s ⊆ file_urls s'.
Proof.
  intros Hstep.
  assert (Hsuf2 : ∀ a b (l : list string), l `suffix_of` a :: b :: l).
  { intros a b l. by exists [a; b]. }
  assert (Hsuf1 : ∀ a (l : list string), l `suffix_of` a :: l).
  { intros a l. by exists [a]. }
  destruct r as [[returned self']|e].
  - destruct (seed_step_Ret _ _ _ _ _ _ Hstep)
      as (seed & rest & next & body & links & _ & _ & _ & _ & Hself & _ & ->).
    simpl. repeat split; [apply Hsuf2|].
    destruct returned; [done|].
    unfold file_urls. simpl. rewrite list_to_set_sorted, Hself. simpl.
    unfold loaded. destruct (crawler_state s); simpl.
    + apply union_subseteq_l.
    + apply empty_subseteq.
  - revert Hstep.
    unfold CrawlerRecursive.seed_step. rewrite bind_load_state.
    unfold bind at 1, CrawlerRecursive.get_search_urls.
    destruct (seed_urls (loaded self s)) as [|seed rest].
    { unfold raise. intros [= <- <-]. done. }
    unfold bind at 1, fetch_page at 1, bind at 1, lift at 1.
    destruct (http_get E seed) as [body|] eqn:Hget; simpl.
    2: { intros [= <- <-]. simpl. repeat split; [apply Hsuf1|done]. }
    destruct (pagination_next (lxml E body)) as [[next|]|];
      try (unfold raise; intros [= <- <-]; simpl; repeat split; [apply Hsuf1|done]).
    unfold ret at 1, bind at 1, fetch_page, bind at 1, lift.
    rewrite Hget. simpl markup_of.
    destruct (_process_seed E _ (MStr body)) as [links|].
    2: { intros [= <- <-]. simpl. repeat split; [apply Hsuf2|done]. }
    destruct (_ =? _); unfold bind, CrawlerRecursive._save_state, ret;
      simpl; discriminate.
Qed.

Lemma find_articles_frame depth self s r s' :
  CrawlerRecursive.find_articles E depth self s = (r, s') →
  parser_state s' = parser_state s ∧ stored s' = stored s ∧
  requests s `suffix_of` requests s' ∧
  file_urls s ⊆ file_urls s'.
Proof.
  revert self s. induction depth as [|depth IH]; intros self s; simpl.
  - unfold raise. intros [= <- <-]. done.
  - unfold bind.
    destruct (CrawlerRecursive.seed_step E self s) as [[[returned self1]|e] s1] eqn:Hstep.
    + destruct (seed_step_frame _ _ _ _ Hstep) as (Hp & Hst & Hreq & Hfile).
      destruct returned.
      * unfold ret. intros [= <- <-]. done.
      * intros Hrun. destruct (IH _ _ Hrun) as (Hp' & Hst' & Hreq' & Hfile').
        split; [congruence|]. split; [congruence|].
        split; [by etrans|by etrans].
    + intros [= <- <-]. by apply (seed_step_frame _ _ _ _ Hstep).
Qed.

(** X3. However the recursive walk ends, by returning or by an
    exception, the urls of the state file before it are still in the
    file after it, the parser state and the stored articles are as
    before, and the earlier requests are a suffix of the log. *)
Theorem walk_only_adds_to_state (depth : nat) (self : Crawler.t) (s s' : Sys)
    (r : res Crawler.t) :
  CrawlerRecursive.find_articles E depth self s = (r, s') →
  file_urls s ⊆ file_urls s' ∧
  parser_state s' = parser_state s ∧ stored s' = stored s ∧
  requests s `suffix_of` requests s'.
Proof.
  intros Hrun. destruct (find_articles_frame _ _ _ _ _ Hrun) as (? & ? & ? & ?). done.
Qed.

End CrawlStateFile.

(** ** The course of the recursive walk *)

Section WalkCourse.

Context (E : Env).

Import Crawler.

Lemma loaded_persisted self s self' s' :
  CrawlerRecursive.seed_step E self s = (Ret (false, self'), s') →
  loaded self' s' = self'.
Proof.
  intros Hstep.
  destruct (seed_step_Ret _ _ _ _ _ _ Hstep)
    as (seed & rest & next & body & links & _ & _ & _ & _ & -> & _ & ->).
  unfold loaded. simpl. by rewrite list_to_set_sorted.
Qed.

(** What the run returns, seen from the state that its first call loads. *)
Lemma find_articles_Ret depth self s self' s' :
  CrawlerRecursive.find_articles E depth self s = (Ret self', s') →
  len_urls self' = max_articles self' ∧
  max_articles self' = max_articles self ∧
  max_articles_per_seed self' = max_articles_per_seed self ∧
  urls (loaded self s) ⊆ urls self' ∧
  tail (seed_urls self') = tail (seed_urls (loaded self s)).
Proof.
  revert self s. induction depth as [|depth IH]; intros self s; simpl.
  - discriminate.
  - unfold bind.
    destruct (CrawlerRecursive.seed_step E self s) as [[[returned self1]|e] s1] eqn:Hstep;
      [|discriminate].
    destruct (seed_step_Ret _ _ _ _ _ _ Hstep)
      as (seed & rest & next & body & links & Hseeds & _ & _ & _ & Hself & Hret & _).
    assert (Hsub : urls (loaded self s) ⊆ urls self1)
      by (rewrite Hself; apply union_subseteq_l).
    assert (Htail : tail (seed_urls self1) = tail (seed_urls (loaded self s)))
      by (by rewrite Hself, Hseeds).
    assert (Hmax : max_articles self1 = max_articles self) by (by rewrite Hself).
    assert (Hper : max_articles_per_seed self1 = max_articles_per_seed self)
      by (by rewrite Hself).
    destruct returned.
    + unfold ret. intros [= <- <-].
      split; [|done]. symmetry in Hret. by apply Z.eqb_eq in Hret.
    + intros Hrun. destruct (IH _ _ Hrun) as (Hfull & Hmax' & Hper' & Hsub' & Htail').
      rewrite (loaded_persisted _ _ _ _ Hstep) in Hsub', Htail'.
      split; [done|]. split; [congruence|]. split; [congruence|].
      split; [by etrans|congruence].
Qed.

(** X4. The recursive walk returns only from line 131: the crawler it
    returns holds exactly [max_articles] urls, among them every url it
    loaded at the start, and its caps are those it started with. *)
Theorem walk_returns_exactly_at_cap (depth : nat) (self self' : Crawler.t)
    (s s' : Sys) :
  CrawlerRecursive.find_articles E depth self s = (Ret self', s') →
  len_urls self' = max_articles self ∧
  urls (loaded self s) ⊆ urls self' ∧
  max_articles self' = max_articles self ∧
  max_articles_per_seed self' = max_articles_per_seed self.
Proof.
  intros Hrun.
  destruct (find_articles_Ret _ _ _ _ _ Hrun) as (Hfull & Hmax & Hper & Hsub & _).
  split; [congruence|done].
Qed.

(** X5. The recursive walk follows one pagination chain: it replaces
    the first seed only, and the seeds after the first are carried to
    the returned crawler and to the state file as they were loaded. *)
Theorem walk_keeps_other_seeds (depth : nat) (self self' : Crawler.t)
    (s s' : Sys) :
  CrawlerRecursive.find_articles E depth self s = (Ret self', s') →
  tail (seed_urls self') = tail (seed_urls (loaded self s)) ∧
  ∀ st, crawler_state s' = Some st →
        tail (st_seed st) = tail (seed_urls (loaded self s)).
Proof.
  intros Hrun. split; [by eapply find_articles_Ret|].
  revert self s Hrun. induction depth as [|depth IH]; intros self s; simpl.
  - discriminate.
  - unfold bind.
    destruct (CrawlerRecursive.seed_step E self s) as [[[returned self1]|e] s1] eqn:Hstep;
      [|discriminate].
    destruct (seed_step_Ret _ _ _ _ _ _ Hstep)
      as (seed & rest & next & body & links & Hseeds & _ & _ & _ & Hself & _ & Hs1).
    destruct returned.
    + unfold ret. intros [= <- <-] st. rewrite Hs1. simpl.
      unfold loaded. intros ->. reflexivity.
    + intros Hrun st Hst. rewrite (IH _ _ Hrun st Hst).
      rewrite (loaded_persisted _ _ _ _ Hstep), Hself, Hseeds. reflexivity.
Qed.

(** X6. A call of the recursive walk that completes requests the page
    of the first seed exactly twice, once in [get_search_urls] and once
    in [find_articles], and leaves the "next" address of that page in
    the place of the first seed. *)
Theorem step_fetches_seed_twice (self self' : Crawler.t) (s s' : Sys)
    (returned : bool) :
  CrawlerRecursive.seed_step E self s = (Ret (returned, self'), s') →
  ∃ seed rest next body,
    seed_urls (loaded self s) = seed :: rest ∧
    http_get E seed = Some body ∧
    pagination_next (lxml E body) = Some (Some next) ∧
    seed_urls self' = next :: rest ∧
    requests s' = seed :: seed :: requests s.
Proof.
  intros Hstep.
  destruct (seed_step_Ret _ _ _ _ _ _ Hstep)
    as (seed & rest & next & body & links & Hseeds & Hget & Hnext & _ & -> & _ & ->).
  exists seed, rest, next, body. done.
Qed.

(** X7. With no seed to start from, neither configured nor persisted,
    the recursive walk raises [IndexError] before any request. *)
Theorem walk_without_seed_raises_IndexError (depth : nat) (self : Crawler.t)
    (s : Sys) :
  seed_urls (loaded self s) = [] →
  CrawlerRecursive.find_articles E (S depth) self s = (Raise IndexError, s).
Proof.
  intros Hseeds. simpl. unfold bind at 1, CrawlerRecursive.seed_step.
  rewrite bind_load_state.
  unfold bind at 1, CrawlerRecursive.get_search_urls. by rewrite Hseeds.
Qed.

End WalkCourse.

(** ** Link extraction and the loop of [Crawler] *)

Section Links.

Context (E : Env).

Import Crawler.

Lemma hrefs_Ret anchors l : hrefs anchors = Ret l ↔ anchors = Some <$> l.
Proof.
  revert l. induction anchors as [|[h|] anchors IH]; intros l; simpl.
  - split.
    + intros [= <-]. done.
    + destruct l; [done|discriminate].
  - unfold res_bind. destruct (hrefs anchors) as [hs|e] eqn:Hh.
    + split.
      * intros [= <-]. simpl. f_equal. by apply IH.
      * destruct l as [|x l]; [discriminate|]. simpl. intros [= -> Hl].
        apply IH in Hl. congruence.
    + split; [discriminate|].
      destruct l as [|x l]; [discriminate|]. simpl. intros [= -> Hl].
      apply IH in Hl. discriminate.
  - split; [discriminate|]. destruct l; discriminate.
Qed.

Lemma hrefs_Raise anchors e : hrefs anchors = Raise e → e = KeyError ∧ None ∈ anchors.
Proof.
  induction anchors as [|[h|] anchors IH]; simpl.
  - discriminate.
  - unfold res_bind. destruct (hrefs anchors); [discriminate|].
    intros [= <-]. destruct (IH eq_refl) as [-> ?]. split; [done|by right].
  - intros [= <-]. split; [done|by left].
Qed.

(** X8. [_extract_url] returns the [href] of every matched anchor in
    document order, and raises [KeyError] exactly when one of the
    anchors has no [href]. *)
Theorem extract_url_in_document_order (article_bs : Soup) :
  (∀ l, _extract_url article_bs = Ret l ↔ news article_bs = Some <$> l) ∧
  (_extract_url article_bs = Raise KeyError ↔ None ∈ news article_bs) ∧
  (∀ e, _extract_url article_bs = Raise e → e = KeyError).
Proof.
  unfold _extract_url. split; [|split].
  - intros l. apply hrefs_Ret.
  - split.
    + intros H. by apply hrefs_Raise in H as [_ ?].
    + intros Hin. destruct (hrefs (news article_bs)) as [l|e] eqn:Hh.
      * apply hrefs_Ret in Hh. rewrite Hh in Hin.
        apply list_elem_of_fmap in Hin as (? & ? & ?). discriminate.
      * by apply hrefs_Raise in Hh as [-> _].
  - intros e H. by apply hrefs_Raise in H as [? _].
Qed.

Lemma slice_to_prefix {A} (l : list A) (n : Z) : slice_to l n `prefix_of` l.
Proof.
  unfold slice_to. destruct (0 <=? n).
  - exists (drop (Z.to_nat n) l). by rewrite take_drop.
  - exists (drop (length l - Z.to_nat (- n)) l). by rewrite take_drop.
Qed.

Lemma slice_to_nonneg {A} (l : list A) (n : Z) :
  0 <= n → slice_to l n = take (Z.to_nat n) l.
Proof. intros Hn. unfold slice_to. by destruct (Z.leb_spec 0 n); [|lia]. Qed.

(** X9. The links that [_process_seed] returns are the first links of
    the page, in document order; when neither cap is negative they are
    its first [min(max_articles_per_seed, max_articles - len(urls))]
    links. It returns only for a page body. *)
Theorem process_seed_takes_first_links (self : Crawler.t) (page : markup)
    (links : list string) :
  _process_seed E self page = Ret links →
  ∃ body all_links,
    page = MStr body ∧
    news (lxml E body) = Some <$> all_links ∧
    links `prefix_of` all_links ∧
    (0 <= max_articles_per_seed self → len_urls self <= max_articles self →
     links = take (Z.to_nat (Z.min (max_articles_per_seed self)
                                   (max_articles self - len_urls self)))
                  all_links).
Proof.
  unfold _process_seed, res_bind. intros H.
  destruct page as [| |body]; try discriminate. simpl in H.
  destruct (_extract_url (lxml E body)) as [all_links|] eqn:Hall; [|discriminate].
  injection H as <-. exists body, all_links.
  split; [done|]. split; [by apply hrefs_Ret|]. split.
  - etrans; apply slice_to_prefix.
  - intros Hper Hcap. rewrite !slice_to_nonneg by lia.
    rewrite take_take. f_equal. lia.
Qed.

Lemma loop_raises_after_fetch (self : Crawler.t) (s : Sys) (u body : string)
    (rest : list string) :
  http_get E u = Some body →
  fst (find_articles_loop E (u :: rest) self s) = Raise TypeError.
Proof.
  intros Hget. simpl. unfold bind, fetch_page. rewrite Hget.
  by rewrite bool_decide_eq_false_2.
Qed.

(** X10. [Crawler.find_articles] returns normally exactly when every
    seed fetch fails; it then returns the crawler unchanged, having
    requested the seeds in order. *)
Theorem crawler_returns_iff_all_fetches_fail (todo : list string)
    (self : Crawler.t) (s : Sys) :
  (Forall (λ u, http_get E u = None) todo →
   find_articles_loop E todo self s
     = (Ret self, mkSys (crawler_state s) (parser_state s)
                        (reverse todo ++ requests s) (stored s))) ∧
  (∀ self' s', find_articles_loop E todo self s = (Ret self', s') →
     Forall (λ u, http_get E u = None) todo ∧ self' = self).
Proof.
  split.
  - intros Hall. revert s. induction Hall as [|u rest Hget Hall IH]; intros s.
    + simpl. unfold ret. by destruct s.
    + rewrite (failed_fetch_skips_seed E self s u rest Hget), IH. simpl.
      by rewrite reverse_cons, <- app_assoc.
  - revert s. induction todo as [|u rest IH]; intros s self' s'.
    + simpl. unfold ret. intros [= <- <-]. done.
    + destruct (http_get E u) as [body|] eqn:Hget.
      * intros Hrun. pose proof (loop_raises_after_fetch self s u body rest Hget) as Hr.
        rewrite Hrun in Hr. discriminate.
      * rewrite (failed_fetch_skips_seed E self s u rest Hget). intros Hrun.
        destruct (IH _ _ _ Hrun) as [Hall ->]. split; [by constructor|done].
Qed.

End Links.

(** ** One article *)

Section OneArticle.

Context (E : Env).

Import ArticleParser.

Lemma parse_unrecorded self s :
  full_url self ∉ recorded s →
  parse E self s
  = bind (fetch_page E (full_url self)) (λ page,
      bind (lift (BeautifulSoup E (markup_of page))) (λ soup,
        bind (lift (_fill_article_with_meta_information E
                      (_fill_article_with_text self soup) soup)) (λ self',
          bind (_save_state self') (λ _, ret self')))) s.
Proof.
  intros Hnew. unfold parse, bind at 1. rewrite _load_state_processed.
  by rewrite bool_decide_eq_false_2 by (by rewrite elem_of_list_to_set).
Qed.

(** X11. For a url that is not recorded, a failed fetch makes [parse]
    raise [TypeError], a page without headline, byline or date element
    [AttributeError], and a date element without [datetime] attribute
    [KeyError]; whatever [parse] raises, it has made its one request
    and left both state files and the stored articles as they were. *)
Theorem parse_failure_modes (self : ArticleParser.t) (s : Sys) :
  full_url self ∉ recorded s →
  (http_get E (full_url self) = None →
   fst (parse E self s) = Raise TypeError) ∧
  (∀ body, http_get E (full_url self) = Some body →
     (h1 (lxml E body) = None → fst (parse E self s) = Raise AttributeError) ∧
     (li_autor (lxml E body) = None → fst (parse E self s) = Raise AttributeError) ∧
     (time_entry_date (lxml E body) = None →
      fst (parse E self s) = Raise AttributeError) ∧
     (h1 (lxml E body) ≠ None → li_autor (lxml E body) ≠ None →
      time_entry_date (lxml E body) = Some None →
      fst (parse E self s) = Raise KeyError)) ∧
  (∀ e, fst (parse E self s) = Raise e →
     snd (parse E self s)
     = mkSys (crawler_state s) (parser_state s)
             (full_url self :: requests s) (stored s)).
Proof.
  intros Hnew. split; [|split].
  - rewrite (parse_unrecorded self s Hnew).
    unfold bind, fetch_page, lift. intros ->. reflexivity.
  - rewrite (parse_unrecorded self s Hnew).
    unfold bind, fetch_page, lift, _fill_article_with_meta_information.
    intros body ->. simpl. repeat split.
    + intros ->. reflexivity.
    + intros ->. by destruct (h1 (lxml E body)).
    + intros ->. by destruct (h1 (lxml E body)), (li_autor (lxml E body)).
    + intros Hh Ha ->. by destruct (h1 (lxml E body)), (li_autor (lxml E body)).
  - intros e He. destruct (parse E self s) as [r s'] eqn:Hp. simpl in *. subst r.
    destruct (parse_work E self s _ _ Hnew Hp) as (Hreq & Hc & Hst & Hps).
    destruct s'. simpl in *. congruence.
Qed.

(** X12. When [parse] completes for a url that is not recorded, the
    page was fetched and the article carries its content: the
    paragraphs joined by newlines, the headline, the byline, the parsed
    date and the topics in document order; the url is appended to the
    recorded list. *)
Theorem parse_fills_article (u : string) (idx : nat) (s s' : Sys)
    (p : ArticleParser.t) :
  u ∉ recorded s →
  parse E (__init__ u idx) s = (Ret p, s') →
  ∃ body headline byline when stamp,
    http_get E u = Some body ∧
    h1 (lxml E body) = Some headline ∧
    li_autor (lxml E body) = Some byline ∧
    time_entry_date (lxml E body) = Some (Some when) ∧
    fromisoformat E when = Some stamp ∧
    p = mk (mkArticle u idx
              (Some (String.concat newline (entry_paragraphs (lxml E body))))
              (Some headline) (Some byline) (Some stamp)
              (categories (lxml E body)))
           u idx ∧
    s' = mkSys (crawler_state s) (Some (recorded s ++ [u])) (u :: requests s) (stored s).
Proof.
  intros Hnew. rewrite (parse_unrecorded (__init__ u idx) s Hnew).
  unfold bind, fetch_page, lift, _fill_article_with_meta_information,
    _fill_article_with_text, unify_date_format, res_bind, _save_state, ret.
  simpl.
  destruct (http_get E u) as [body|]; simpl; [|discriminate].
  destruct (h1 (lxml E body)) as [headline|] eqn:Hh; [|discriminate].
  destruct (li_autor (lxml E body)) as [byline|] eqn:Ha; [|discriminate].
  destruct (time_entry_date (lxml E body)) as [[when|]|] eqn:Ht; try discriminate.
  destruct (fromisoformat E when) as [stamp|] eqn:Hd; [|discriminate].
  intros [= <- <-]. exists body, headline, byline, when, stamp. done.
Qed.

End OneArticle.

(** ** The parse phase *)

Section ParsePhase.

Context (E : Env).

Import ArticleParser.

Lemma parse_frame self s r s' :
  parse E self s = (r, s') →
  crawler_state s' = crawler_state s ∧ stored s' = stored s ∧
  recorded s `prefix_of` recorded s' ∧
  (is_Some (parser_state s) → is_Some (parser_state s')).
Proof.
  intros Hp.
  destruct (decide (full_url self ∈ recorded s)) as [Hin|Hnew].
  - rewrite (parse_skip E _ _ Hin) in Hp. by injection Hp as <- <-.
  - destruct (parse_work E self s _ _ Hnew Hp) as (_ & Hc & Hst & Hr).
    split; [done|]. split; [done|]. destruct r as [self'|e].
    + destruct Hr as (Hr & _). unfold recorded at 2. rewrite Hr. simpl.
      split; [by eexists|eauto].
    + unfold recorded. rewrite Hr. done.
Qed.

Lemma parse_phase_frame items s r s' :
  parse_phase E items s = (r, s') →
  crawler_state s' = crawler_state s ∧
  recorded s `prefix_of` recorded s' ∧
  stored s `suffix_of` stored s'.
Proof.
  revert s. induction items as [|[idx u] items IH]; intros s; simpl.
  - unfold ret. intros [= <- <-]. done.
  - unfold bind at 1.
    destruct (parse E (__init__ u idx) s) as [[p|e] s1] eqn:Hp.
    + destruct (parse_frame _ _ _ _ Hp) as (Hc & Hst & Hrec & _).
      unfold bind at 1, save. simpl. intros Hrest.
      destruct (IH _ Hrest) as (Hc' & Hrec' & Hst'). simpl in *.
      split; [congruence|]. split; [by etrans|].
      rewrite <- Hst. etrans; [|exact Hst']. by exists [article p].
    + intros [= <- <-]. destruct (parse_frame _ _ _ _ Hp) as (Hc & Hst & Hrec & _).
      split; [done|]. split; [done|]. by rewrite Hst.
Qed.

(** X13. However the parse phase ends, the crawl state file is as
    before, the urls recorded before are still recorded, in the same
    places, and the articles stored before are still stored. *)
Theorem parse_phase_only_appends (items : list (nat * string)) (s s' : Sys)
    (r : res unit) :
  parse_phase E items s = (r, s') →
  crawler_state s' = crawler_state s ∧
  recorded s `prefix_of` recorded s' ∧
  stored s `suffix_of` stored s'.
Proof. apply parse_phase_frame. Qed.

(** X14. Over urls that are all recorded already, as in a run that is
    started again, the parse phase makes no request and records
    nothing, but [save] is still called for each of them: an article
    with no field filled is stored for every item. *)
Theorem parse_phase_over_recorded_urls (items : list (nat * string)) (s : Sys) :
  Forall (λ item, item.2 ∈ recorded s) items →
  parse_phase E items s
  = (Ret tt,
     mkSys (crawler_state s) (parser_state s) (requests s)
           (reverse ((λ item, Article_init item.2 item.1) <$> items) ++ stored s)).
Proof.
  intros Hall. revert s Hall.
  induction items as [|[idx u] items IH]; intros s Hall; simpl.
  - unfold ret. by destruct s.
  - apply Forall_cons in Hall as [Hu Hall]. simpl in Hu.
    unfold bind at 1. rewrite (parse_skip E (__init__ u idx) s Hu).
    unfold bind at 1, save. simpl. rewrite IH by done. simpl.
    by rewrite reverse_cons, <- app_assoc.
Qed.

Lemma parse_phase_records_all items s s' :
  parse_phase E items s = (Ret tt, s') →
  Forall (λ item, item.2 ∈ recorded s') items.
Proof.
  revert s. induction items as [|[idx u] items IH]; intros s; simpl.
  - constructor.
  - unfold bind at 1.
    destruct (parse E (__init__ u idx) s) as [[p|e] s1] eqn:Hp; [|discriminate].
    unfold bind at 1, save. simpl. intros Hrest.
    constructor; [|by eapply IH]. simpl.
    destruct (parse_phase_frame _ _ _ _ Hrest) as (_ & (l & Hl) & _).
    simpl in Hl. rewrite Hl. apply elem_of_app. left.
    destruct (decide (u ∈ recorded s)) as [Hin|Hnew].
    + rewrite (parse_skip E (__init__ u idx) s Hin) in Hp. by injection Hp as <- <-.
    + destruct (parse_work E (__init__ u idx) s _ _ Hnew Hp) as (_ & _ & _ & Hst & _).
      simpl in Hst. unfold recorded at 1. rewrite Hst. simpl.
      apply elem_of_app. right. by left.
Qed.

(** X15. After a parse phase that completes, the url of every item is
    recorded as parsed. *)
Theorem parse_phase_records_every_url (items : list (nat * string)) (s s' : Sys) :
  parse_phase E items s = (Ret tt, s') →
  Forall (λ item, item.2 ∈ recorded s') items.
Proof. apply parse_phase_records_all. Qed.

End ParsePhase.

(** ** A whole run *)

Section WholeRun.

Context (E : Env).

(** X16. When a run of [main] completes, its walk returned a crawler
    with exactly [max_num_articles] urls; the run stored one article
    for each of these urls, with the ids [0, 1, ...] in their
    ascending order, and recorded each of them as parsed. *)
Theorem completed_run_stores_max_articles (seeds : list string)
    (max_num_articles max_per_seed : Z) (depth : nat) (s s' : Sys) :
  main E seeds max_num_articles max_per_seed depth s = (Ret tt, s') →
  ∃ final s1,
    CrawlerRecursive.find_articles E depth
      (Crawler.__init__ seeds max_num_articles max_per_seed) s = (Ret final, s1) ∧
    Crawler.len_urls final = max_num_articles ∧
    id_url <$> stored s'
      = reverse (enumerate (sorted (Crawler.urls final))) ++ (id_url <$> stored s) ∧
    Z.of_nat (length (stored s')) = Z.of_nat (length (stored s)) + max_num_articles ∧
    ∀ u, u ∈ Crawler.urls final → u ∈ recorded s'.
Proof.
  unfold main, bind.
  destruct (CrawlerRecursive.find_articles E depth _ s) as [[final|e] s1] eqn:Hwalk;
    [|discriminate].
  intros Hparse.
  destruct (find_articles_Ret _ _ _ _ _ _ Hwalk) as (Hfull & Hmax & _).
  destruct (find_articles_frame _ _ _ _ _ _ Hwalk) as (_ & Hst & _).
  pose proof (parse_phase_stored E _ _ _ Hparse) as Hstored.
  pose proof (parse_phase_records_all _ _ _ _ Hparse) as Hrec.
  exists final, s1. split; [done|].
  assert (Hsize : Crawler.len_urls final = max_num_articles).
  { rewrite Hfull, Hmax. reflexivity. }
  split; [done|]. split; [|split].
  - unfold id_url. rewrite Hstored, Hst. reflexivity.
  - apply (f_equal length) in Hstored.
    rewrite length_fmap, length_app, length_reverse, length_fmap in Hstored.
    unfold enumerate in Hstored. rewrite length_imap, length_sorted, Hst in Hstored.
    unfold Crawler.len_urls in Hsize. lia.
  - intros u Hu. apply elem_of_sorted in Hu.
    apply list_elem_of_lookup in Hu as [i Hi].
    rewrite Forall_forall in Hrec.
    apply (Hrec (i, u)). apply list_elem_of_lookup. exists i.
    by rewrite lookup_enumerate, Hi.
Qed.

(** X17. When the walk raises, [main] raises the same exception
    without starting the parse phase: no article page is requested,
    nothing is recorded as parsed and nothing is stored. *)
Theorem failed_walk_ends_the_run (seeds : list string)
    (max_num_articles max_per_seed : Z) (depth : nat) (s s1 : Sys) (e : exn) :
  CrawlerRecursive.find_articles E depth
    (Crawler.__init__ seeds max_num_articles max_per_seed) s = (Raise e, s1) →
  main E seeds max_num_articles max_per_seed depth s = (Raise e, s1) ∧
  parser_state s1 = parser_state s ∧ stored s1 = stored s.
Proof.
  intros Hwalk. unfold main, bind. rewrite Hwalk. split; [done|].
  destruct (find_articles_frame _ _ _ _ _ _ Hwalk) as (? & ? & _). done.
Qed.

End WholeRun.

(** ** More on config validation *)

Section ConfigMore.

Local Open Scope string_scope.

(** [validate_config] on a dict with a total count whose [base_urls]
    can be iterated. *)
Lemma validate_config_iter (members : list (string * json)) (base total : json)
    (xs : list json) :
  assoc "base_urls" members = Some base →
  py_iter base = Ret xs →
  assoc "total_articles_to_find_and_parse" members = Some total →
  validate_config (JObj members)
  = if negb (forallb (λ x, Re.match_ url_check (py_str x)) xs)
    then Raise IncorrectURLError
    else if negb (isinstance_int total) then Raise IncorrectNumberOfArticlesError
    else if negb (in_count_range total) then Raise NumberOfArticlesOutOfRangeError
    else match assoc "max_number_articles_to_get_from_one_seed" members with
         | Some per_seed => Ret (base, total, per_seed)
         | None => Raise UnknownConfigError
         end.
Proof.
  intros Hbase Hiter Htotal.
  unfold validate_config, validate_config_try, subscript, res_bind.
  rewrite Htotal, Hbase, Hiter.
  destruct (forallb _ xs); destruct (isinstance_int total);
    destruct (in_count_range total); try reflexivity.
  simpl.
  destruct (assoc "max_number_articles_to_get_from_one_seed" members); reflexivity.
Qed.

Lemma validate_config_try_Ret (config : json) (r : json * json * json) :
  validate_config_try config = Ret r →
  ∃ members xs,
    config = JObj members ∧
    assoc "base_urls" members = Some r.1.1 ∧
    assoc "total_articles_to_find_and_parse" members = Some r.1.2 ∧
    assoc "max_number_articles_to_get_from_one_seed" members = Some r.2 ∧
    py_iter r.1.1 = Ret xs ∧
    forallb (λ x, Re.match_ url_check (py_str x)) xs = true ∧
    isinstance_int r.1.2 = true ∧ in_count_range r.1.2 = true.
Proof.
  unfold validate_config_try, subscript, res_bind.
  destruct config as [| | | | | |members]; try discriminate.
  destruct (assoc "total_articles_to_find_and_parse" members) as [total|] eqn:Ht;
    [|discriminate].
  destruct (assoc "base_urls" members) as [base|] eqn:Hb; [|discriminate].
  destruct (py_iter base) as [xs|] eqn:Hi; [|discriminate].
  destruct (forallb _ xs) eqn:Hu; destruct (isinstance_int total) eqn:Hint;
    destruct (in_count_range total) eqn:Hrange; try discriminate.
  simpl.
  destruct (assoc "max_number_articles_to_get_from_one_seed" members) as [per|] eqn:Hp;
    [|discriminate].
  intros [= <-]. exists members, xs. done.
Qed.

(** X18. What [validate_config] returns has passed every check: the
    config is a dict, the three values are those of its three keys,
    every item of [base_urls] matches the url pattern, and the total
    count is an [int] in [(0, 100000]]. *)
Theorem validate_config_result_is_checked (config base total per_seed : json) :
  validate_config config = Ret (base, total, per_seed) →
  ∃ members xs,
    config = JObj members ∧
    assoc "base_urls" members = Some base ∧
    assoc "total_articles_to_find_and_parse" members = Some total ∧
    assoc "max_number_articles_to_get_from_one_seed" members = Some per_seed ∧
    py_iter base = Ret xs ∧
    forallb (λ x, Re.match_ url_check (py_str x)) xs = true ∧
    isinstance_int total = true ∧ in_count_range total = true.
Proof.
  unfold validate_config.
  destruct (validate_config_try config) as [r|e] eqn:Htry.
  - intros [= ->]. by apply validate_config_try_Ret in Htry.
  - destruct e; discriminate.
Qed.

Lemma validate_config_try_Raise (config : json) (e : exn) :
  validate_config_try config = Raise e →
  e ∈ [TypeError; KeyError; IncorrectURLError; IncorrectNumberOfArticlesError;
       NumberOfArticlesOutOfRangeError].
Proof.
  unfold validate_config_try, subscript, res_bind.
  destruct config as [| | | | | |members];
    try (intros [= <-]; set_unfold; tauto).
  destruct (assoc "total_articles_to_find_and_parse" members) as [total|];
    [|intros [= <-]; set_unfold; tauto].
  destruct (assoc "base_urls" members) as [base|];
    [|intros [= <-]; set_unfold; tauto].
  destruct base; simpl; try (intros [= <-]; set_unfold; tauto).
  all: destruct (forallb _ _); destruct (isinstance_int total);
    destruct (in_count_range total); simpl;
    try (intros [= <-]; set_unfold; tauto).
  all: destruct (assoc "max_number_articles_to_get_from_one_seed" members);
    try discriminate; intros [= <-]; set_unfold; tauto.
Qed.

(** X19. On a config that was loaded, no [KeyError] leaves
    [validate_config]: a dict without the total count, a dict with it
    but without [base_urls], and a dict that passes the checks but has
    no [max_number_articles_to_get_from_one_seed] all raise
    [UnknownConfigError]. *)
Theorem validate_config_errors (config : json) :
  validate_config config ≠ Raise KeyError ∧
  (∀ members, config = JObj members →
     assoc "total_articles_to_find_and_parse" members = None →
     validate_config config = Raise UnknownConfigError) ∧
  (∀ members, config = JObj members →
     assoc "base_urls" members = None →
     validate_config config = Raise UnknownConfigError) ∧
  (∀ members base total xs, config = JObj members →
     assoc "base_urls" members = Some base →
     py_iter base = Ret xs →
     forallb (λ x, Re.match_ url_check (py_str x)) xs = true →
     assoc "total_articles_to_find_and_parse" members = Some total →
     isinstance_int total = true → in_count_range total = true →
     assoc "max_number_articles_to_get_from_one_seed" members = None →
     validate_config config = Raise UnknownConfigError).
Proof.
  split; [|split; [|split]].
  - unfold validate_config.
    destruct (validate_config_try config) as [r|e'] eqn:Htry; [discriminate|].
    apply validate_config_try_Raise in Htry.
    set_unfold. destruct Htry as [->|[->|[->|[->|[->|[]]]]]]; discriminate.
  - intros members -> Ht.
    unfold validate_config, validate_config_try, subscript, res_bind. by rewrite Ht.
  - intros members -> Hb.
    unfold validate_config, validate_config_try, subscript, res_bind. rewrite Hb.
    by destruct (assoc "total_articles_to_find_and_parse" members).
  - intros members base total xs -> Hb Hi Hu Ht Hint Hrange Hp.
    rewrite (validate_config_iter members base total xs Hb Hi Ht), Hu, Hint, Hrange, Hp.
    reflexivity.
Qed.

(** X20. A config that is not a dict, or whose [base_urls] is [null], a
    boolean or a number, raises [TypeError]: the handler of
    [validate_config] does not catch it. *)
Theorem validate_config_TypeError (config : json) :
  (match config with JObj _ => False | _ => True end →
   validate_config config = Raise TypeError) ∧
  (∀ members total base,
     config = JObj members →
     assoc "total_articles_to_find_and_parse" members = Some total →
     assoc "base_urls" members = Some base →
     match base with JArr _ | JStr _ | JObj _ => False | _ => True end →
     validate_config config = Raise TypeError).
Proof.
  split.
  - destruct config; try done; tauto.
  - intros members total base -> Ht Hb Hbase.
    unfold validate_config, validate_config_try, subscript, res_bind.
    rewrite Ht, Hb. destruct base; try done; tauto.
Qed.

(** X21. The url check comes first: a config in which some item of
    [base_urls] does not match raises [IncorrectURLError] whatever the
    total count is, even one of the wrong type or out of range. *)
Theorem url_error_comes_first (members : list (string * json))
    (base total : json) (xs : list json) (x : json) :
  assoc "base_urls" members = Some base →
  py_iter base = Ret xs →
  assoc "total_articles_to_find_and_parse" members = Some total →
  x ∈ xs →
  Re.match_ url_check (py_str x) = false →
  validate_config (JObj members) = Raise IncorrectURLError.
Proof.
  intros Hb Hi Ht Hx Hno.
  rewrite (validate_config_iter members base total xs Hb Hi Ht).
  assert (forallb (λ x, Re.match_ url_check (py_str x)) xs = false) as ->; [|done].
  apply not_true_is_false. intros Hall.
  rewrite forallb_forall in Hall. apply list_elem_of_In in Hx.
  specialize (Hall x Hx). congruence.
Qed.

(** X22. A JSON boolean passes as a count, being an [int] to
    [isinstance]: [true] is returned as the total count, [false] is
    out of range rather than of the wrong type. *)
Theorem boolean_total_count (members : list (string * json)) (base : json)
    (xs : list json) (b : bool) :
  assoc "base_urls" members = Some base →
  py_iter base = Ret xs →
  forallb (λ x, Re.match_ url_check (py_str x)) xs = true →
  assoc "total_articles_to_find_and_parse" members = Some (JBool b) →
  validate_config (JObj members)
  = if b then
      match assoc "max_number_articles_to_get_from_one_seed" members with
      | Some per_seed => Ret (base, JBool true, per_seed)
      | None => Raise UnknownConfigError
      end
    else Raise NumberOfArticlesOutOfRangeError.
Proof.
  intros Hb Hi Hu Ht.
  rewrite (validate_config_iter members base (JBool b) xs Hb Hi Ht), Hu.
  by destruct b.
Qed.

(** X23. An empty [base_urls], be it a list, a string or a dict, passes
    the url check, there being no item to fail it. *)
Theorem empty_base_urls_pass (members : list (string * json))
    (base total per_seed : json) :
  assoc "base_urls" members = Some base →
  py_iter base = Ret [] →
  assoc "total_articles_to_find_and_parse" members = Some total →
  isinstance_int total = true → in_count_range total = true →
  assoc "max_number_articles_to_get_from_one_seed" members = Some per_seed →
  validate_config (JObj members) = Ret (base, total, per_seed).
Proof.
  intros Hb Hi Ht Hint Hrange Hp.
  rewrite (validate_config_iter members base total [] Hb Hi Ht).
  simpl. by rewrite Hint, Hrange, Hp.
Qed.

End ConfigMore.

(** ** The url pattern *)

Section Pattern.

Lemma match_cons (r : Re.regex) (c : ascii) (s : string) :
  Re.match_ r (String c s) = Re.nullable r || Re.match_ (Re.deriv c r) s.
Proof. reflexivity. Qed.

Lemma match_nullable (r : Re.regex) (s : string) :
  Re.nullable r = true → Re.match_ r s = true.
Proof. intros H. destruct s; simpl; by rewrite H. Qed.

(** X24. The pattern is anchored at the start only: a string that
    matches still matches with anything appended to it. *)
Theorem match_ignores_what_follows (r : Re.regex) (s t : string) :
  Re.match_ r s = true → Re.match_ r (s +:+ t) = true.
Proof.
  revert r. induction s as [|c s IH]; intros r.
  - simpl. rewrite orb_false_r. apply match_nullable.
  - change (String c s +:+ t) with (String c (s +:+ t)).
    rewrite !match_cons. intros [Hn|Hs]%orb_true_iff.
    + by rewrite Hn.
    + rewrite (IH _ Hs). apply orb_true_r.
Qed.

Lemma re_dead_nullable (r : Re.regex) : re_dead r = true → Re.nullable r = false.
Proof.
  induction r as [| |p|r1 IH1 r2 IH2|r1 IH1 r2 IH2|r IH]; simpl; try done.
  - intros [H|H]%orb_true_iff.
    + by rewrite IH1.
    + rewrite IH2 by done. apply andb_false_r.
  - intros [H1 H2]%andb_true_iff. by rewrite IH1, IH2.
Qed.

Lemma re_dead_deriv (r : Re.regex) (c : ascii) :
  re_dead r = true → re_dead (Re.deriv c r) = true.
Proof.
  induction r as [| |p|r1 IH1 r2 IH2|r1 IH1 r2 IH2|r IH]; simpl; try done.
  - intros [H|H]%orb_true_iff.
    + rewrite (re_dead_nullable r1 H). simpl. by rewrite IH1.
    + destruct (Re.nullable r1); simpl; rewrite ?IH2, ?H by done;
        rewrite ?orb_true_r; done.
  - intros [H1 H2]%andb_true_iff. by rewrite IH1, IH2.
Qed.

Lemma re_dead_match (r : Re.regex) (s : string) :
  re_dead r = true → Re.match_ r s = false.
Proof.
  revert r. induction s as [|c s IH]; intros r Hr; simpl.
  - by rewrite (re_dead_nullable r Hr).
  - rewrite (re_dead_nullable r Hr). simpl. apply IH. by apply re_dead_deriv.
Qed.

Lemma url_check_first_byte (c : ascii) :
  url_start c = false → re_dead (Re.deriv c url_check) = true.
Proof.
  destruct c as [[] [] [] [] [] [] [] []]; intros H;
    solve [vm_compute in H; discriminate H | vm_compute; reflexivity].
Qed.

(** X25. The url pattern rejects the empty string and every string
    whose first byte is not an ASCII letter or digit (nor the lead byte
    of one of the four other letters that [[a-z]] matches under
    [re.I]): an address with leading blanks, or the [str] of a nested
    list or dict, never passes. *)
Theorem url_check_rejects_by_first_byte (c : ascii) (s : string) :
  Re.match_ url_check EmptyString = false ∧
  (url_start c = false → Re.match_ url_check (String c s) = false).
Proof.
  split; [reflexivity|]. intros Hc. rewrite match_cons.
  rewrite (re_dead_match _ s (url_check_first_byte c Hc)). reflexivity.
Qed.

End Pattern.

(** ** The further properties on the two sites *)

Section OnSites.

Import Site.

Local Open Scope string_scope.

Lemma walk_only_adds_to_state_witness :
  CrawlerRecursive.find_articles env 2 crawler boot = (Ret crawler_done, sys_done) ∧
  file_urls boot ⊆ file_urls sys_done ∧
  parser_state sys_done = parser_state boot ∧ stored sys_done = stored boot ∧
  requests boot `suffix_of` requests sys_done.
Proof.
  assert (H : CrawlerRecursive.find_articles env 2 crawler boot
              = (Ret crawler_done, sys_done)) by (vm_compute; reflexivity).
  split; [exact H|]. exact (walk_only_adds_to_state env _ _ _ _ _ H).
Defined.

Lemma walk_returns_exactly_at_cap_witness :
  CrawlerRecursive.find_articles env 2 crawler boot = (Ret crawler_done, sys_done) ∧
  Crawler.len_urls crawler_done = Crawler.max_articles crawler.
Proof.
  assert (H : CrawlerRecursive.find_articles env 2 crawler boot
              = (Ret crawler_done, sys_done)) by (vm_compute; reflexivity).
  split; [exact H|]. exact (proj1 (walk_returns_exactly_at_cap env _ _ _ _ _ H)).
Defined.

Lemma walk_keeps_other_seeds_witness :
  CrawlerRecursive.find_articles env 2
    (Crawler.__init__ [listing "1"; listing "9"] 5 3) boot
    = (Ret (Crawler.mk [listing "3"; listing "9"] 5 3 (Crawler.urls crawler_done)),
       mkSys (Some (mkCrawlState [story "a"; story "b"; story "c"]
                                 [listing "2"; listing "9"]))
             None [listing "2"; listing "2"; listing "1"; listing "1"] []) ∧
  tail [listing "3"; listing "9"] = tail [listing "1"; listing "9"].
Proof.
  assert (H : CrawlerRecursive.find_articles env 2
                (Crawler.__init__ [listing "1"; listing "9"] 5 3) boot
              = (Ret (Crawler.mk [listing "3"; listing "9"] 5 3 (Crawler.urls crawler_done)),
                 mkSys (Some (mkCrawlState [story "a"; story "b"; story "c"]
                                           [listing "2"; listing "9"]))
                       None [listing "2"; listing "2"; listing "1"; listing "1"] []))
    by (vm_compute; reflexivity).
  split; [exact H|]. exact (proj1 (walk_keeps_other_seeds env _ _ _ _ _ H)).
Defined.

Lemma step_fetches_seed_twice_witness :
  CrawlerRecursive.seed_step env crawler boot
    = (Ret (false, crawler_after_page1), sys_after_page1) ∧
  ∃ seed rest next body,
    Crawler.seed_urls (loaded crawler boot) = seed :: rest ∧
    http_get env seed = Some body ∧
    pagination_next (lxml env body) = Some (Some next) ∧
    Crawler.seed_urls crawler_after_page1 = next :: rest ∧
    requests sys_after_page1 = seed :: seed :: requests boot.
Proof.
  assert (H : CrawlerRecursive.seed_step env crawler boot
              = (Ret (false, crawler_after_page1), sys_after_page1))
    by (vm_compute; reflexivity).
  split; [exact H|]. exact (step_fetches_seed_twice env _ _ _ _ _ H).
Defined.

Lemma walk_without_seed_raises_IndexError_witness :
  Crawler.seed_urls (loaded (Crawler.__init__ [] 5 3) boot) = [] ∧
  CrawlerRecursive.find_articles env 1 (Crawler.__init__ [] 5 3) boot
    = (Raise IndexError, boot).
Proof.
  assert (H : Crawler.seed_urls (loaded (Crawler.__init__ [] 5 3) boot) = [])
    by reflexivity.
  split; [exact H|]. exact (walk_without_seed_raises_IndexError env 0 _ _ H).
Defined.

Lemma process_seed_takes_first_links_witness :
  Crawler._process_seed env (Crawler.__init__ [listing "2"] 2 3) (MStr (listing "2"))
    = Ret [story "f"; story "d"] ∧
  ∃ body all_links,
    MStr (listing "2") = MStr body ∧
    news (lxml env body) = Some <$> all_links ∧
    [story "f"; story "d"] `prefix_of` all_links.
Proof.
  assert (H : Crawler._process_seed env (Crawler.__init__ [listing "2"] 2 3)
                (MStr (listing "2")) = Ret [story "f"; story "d"])
    by (vm_compute; reflexivity).
  split; [exact H|].
  destruct (process_seed_takes_first_links env _ _ _ H)
    as (body & all_links & H1 & H2 & H3 & _).
  exists body, all_links. split; [exact H1|]. split; [exact H2 | exact H3].
Defined.

Lemma parse_failure_modes_witness :
  (story "z" ∉ recorded boot) ∧
  http_get env (story "z") = None ∧
  fst (ArticleParser.parse env (ArticleParser.__init__ (story "z") 0) boot)
    = Raise TypeError.
Proof.
  assert (H1 : story "z" ∉ recorded boot) by apply not_elem_of_nil.
  assert (H2 : http_get env (story "z") = None) by reflexivity.
  split; [exact H1|]. split; [exact H2|].
  exact (proj1 (parse_failure_modes env (ArticleParser.__init__ (story "z") 0) boot H1) H2).
Defined.

Lemma parse_fills_article_witness :
  (story "b" ∉ recorded boot) ∧
  ArticleParser.parse env (ArticleParser.__init__ (story "b") 0) boot
    = (Ret parsed_b, sys_parsed_b) ∧
  ∃ body headline byline when stamp,
    http_get env (story "b") = Some body ∧
    h1 (lxml env body) = Some headline ∧
    li_autor (lxml env body) = Some byline ∧
    time_entry_date (lxml env body) = Some (Some when) ∧
    fromisoformat env when = Some stamp.
Proof.
  assert (H1 : story "b" ∉ recorded boot) by apply not_elem_of_nil.
  assert (H2 : ArticleParser.parse env (ArticleParser.__init__ (story "b") 0) boot
               = (Ret parsed_b, sys_parsed_b)) by (vm_compute; reflexivity).
  split; [exact H1|]. split; [exact H2|].
  destruct (parse_fills_article env _ _ _ _ _ H1 H2)
    as (body & headline & byline & when & stamp & Ha & Hb & Hc & Hd & He & _).
  exists body, headline, byline, when, stamp.
  split; [exact Ha|]. split; [exact Hb|]. split; [exact Hc|]. split; [exact Hd|exact He].
Defined.

Lemma parse_phase_only_appends_witness :
  parse_phase env [(1%nat, story "c"); (2%nat, story "a")] sys_parsed_b
    = (Raise ValueError,
       mkSys None (Some [story "b"; story "c"]) [story "a"; story "c"; story "b"]
             [mkArticle (story "c") 1
                (Some ("First paragraph." +:+ ArticleParser.newline +:+ "Second paragraph."))
                (Some "Story C") (Some "A. Reporter") (Some (Datetime 2020 11 3 10 0 0))
                ["Politics"; "World"]]) ∧
  [story "b"] `prefix_of` [story "b"; story "c"].
Proof.
  assert (H : parse_phase env [(1%nat, story "c"); (2%nat, story "a")] sys_parsed_b
    = (Raise ValueError,
       mkSys None (Some [story "b"; story "c"]) [story "a"; story "c"; story "b"]
             [mkArticle (story "c") 1
                (Some ("First paragraph." +:+ ArticleParser.newline +:+ "Second paragraph."))
                (Some "Story C") (Some "A. Reporter") (Some (Datetime 2020 11 3 10 0 0))
                ["Politics"; "World"]])) by (vm_compute; reflexivity).
  split; [exact H|].
  exact (proj1 (proj2 (parse_phase_only_appends env _ _ _ _ H))).
Defined.

Lemma parse_phase_over_recorded_urls_witness :
  Forall (λ item : nat * string, item.2 ∈ recorded sys_parsed_b)
         [(0%nat, story "b"); (7%nat, story "b")] ∧
  parse_phase env [(0%nat, story "b"); (7%nat, story "b")] sys_parsed_b
    = (Ret tt,
       mkSys None (Some [story "b"]) [story "b"]
             [Article_init (story "b") 7; Article_init (story "b") 0]).
Proof.
  assert (H : Forall (λ item : nat * string, item.2 ∈ recorded sys_parsed_b)
                     [(0%nat, story "b"); (7%nat, story "b")]).
  { repeat constructor. }
  split; [exact H|]. exact (parse_phase_over_recorded_urls env _ _ H).
Defined.

Lemma parse_phase_records_every_url_witness :
  parse_phase Digest.env [(0%nat, Digest.story "x"); (1%nat, Digest.story "y")] boot
    = (Ret tt,
       mkSys None (Some [Digest.story "x"; Digest.story "y"])
             [Digest.story "y"; Digest.story "x"]
             [Digest.article "y" "Story Y" 1; Digest.article "x" "Story X" 0]) ∧
  Forall (λ item : nat * string, item.2 ∈ [Digest.story "x"; Digest.story "y"])
         [(0%nat, Digest.story "x"); (1%nat, Digest.story "y")].
Proof.
  assert (H : parse_phase Digest.env
                [(0%nat, Digest.story "x"); (1%nat, Digest.story "y")] boot
    = (Ret tt,
       mkSys None (Some [Digest.story "x"; Digest.story "y"])
             [Digest.story "y"; Digest.story "x"]
             [Digest.article "y" "Story Y" 1; Digest.article "x" "Story X" 0]))
    by (vm_compute; reflexivity).
  split; [exact H|]. exact (parse_phase_records_every_url Digest.env _ _ _ H).
Defined.

Lemma completed_run_stores_max_articles_witness :
  main Digest.env [Digest.front] 2 2 1 boot = (Ret tt, Digest.sys_done) ∧
  ∃ final s1,
    CrawlerRecursive.find_articles Digest.env 1 (Crawler.__init__ [Digest.front] 2 2) boot
      = (Ret final, s1) ∧
    Crawler.len_urls final = 2 ∧
    Z.of_nat (length (stored Digest.sys_done)) = Z.of_nat (length (stored boot)) + 2.
Proof.
  assert (H : main Digest.env [Digest.front] 2 2 1 boot = (Ret tt, Digest.sys_done))
    by (vm_compute; reflexivity).
  split; [exact H|].
  destruct (completed_run_stores_max_articles Digest.env _ _ _ _ _ _ H)
    as (final & s1 & Hwalk & Hfull & _ & Hlen & _).
  exists final, s1. split; [exact Hwalk|]. split; [exact Hfull | exact Hlen].
Defined.

Lemma failed_walk_ends_the_run_witness :
  CrawlerRecursive.find_articles env 1 (Crawler.__init__ [listing "3"] 5 3) boot
    = (Raise TypeError, mkSys None None [listing "3"] []) ∧
  main env [listing "3"] 5 3 1 boot
    = (Raise TypeError, mkSys None None [listing "3"] []).
Proof.
  assert (H : CrawlerRecursive.find_articles env 1 (Crawler.__init__ [listing "3"] 5 3) boot
              = (Raise TypeError, mkSys None None [listing "3"] []))
    by (vm_compute; reflexivity).
  split; [exact H|]. exact (proj1 (failed_walk_ends_the_run env _ _ _ _ _ _ _ H)).
Defined.

Lemma validate_config_result_is_checked_witness :
  validate_config (JObj (config (JInt 5) (JInt 3)))
    = Ret (JArr [JStr (listing "1")], JInt 5, JInt 3) ∧
  ∃ members xs,
    JObj (config (JInt 5) (JInt 3)) = JObj members ∧
    assoc "base_urls" members = Some (JArr [JStr (listing "1")]) ∧
    assoc "total_articles_to_find_and_parse" members = Some (JInt 5) ∧
    assoc "max_number_articles_to_get_from_one_seed" members = Some (JInt 3) ∧
    py_iter (JArr [JStr (listing "1")]) = Ret xs ∧
    forallb (λ x, Re.match_ url_check (py_str x)) xs = true ∧
    isinstance_int (JInt 5) = true ∧ in_count_range (JInt 5) = true.
Proof.
  assert (H : validate_config (JObj (config (JInt 5) (JInt 3)))
              = Ret (JArr [JStr (listing "1")], JInt 5, JInt 3))
    by (vm_compute; reflexivity).
  split; [exact H|]. exact (validate_config_result_is_checked _ _ _ _ H).
Defined.

Lemma url_error_comes_first_witness :
  assoc "base_urls" Digest.bad_config
    = Some (JArr [JStr (listing "1"); JStr "not a url"]) ∧
  py_iter (JArr [JStr (listing "1"); JStr "not a url"])
    = Ret [JStr (listing "1"); JStr "not a url"] ∧
  assoc "total_articles_to_find_and_parse" Digest.bad_config = Some (JStr "5") ∧
  (JStr "not a url" ∈ [JStr (listing "1"); JStr "not a url"]) ∧
  Re.match_ url_check (py_str (JStr "not a url")) = false ∧
  validate_config (JObj Digest.bad_config) = Raise IncorrectURLError.
Proof.
  assert (H1 : assoc "base_urls" Digest.bad_config
               = Some (JArr [JStr (listing "1"); JStr "not a url"])) by reflexivity.
  assert (H2 : py_iter (JArr [JStr (listing "1"); JStr "not a url"])
               = Ret [JStr (listing "1"); JStr "not a url"]) by reflexivity.
  assert (H3 : assoc "total_articles_to_find_and_parse" Digest.bad_config
               = Some (JStr "5")) by reflexivity.
  assert (H4 : JStr "not a url" ∈ [JStr (listing "1"); JStr "not a url"])
    by (right; left).
  assert (H5 : Re.match_ url_check (py_str (JStr "not a url")) = false)
    by (vm_compute; reflexivity).
  repeat (split; [assumption|]).
  exact (url_error_comes_first _ _ _ _ _ H1 H2 H3 H4 H5).
Defined.

Lemma boolean_total_count_witness :
  assoc "base_urls" (config (JBool true) (JInt 3)) = Some (JArr [JStr (listing "1")]) ∧
  py_iter (JArr [JStr (listing "1")]) = Ret [JStr (listing "1")] ∧
  forallb (λ x, Re.match_ url_check (py_str x)) [JStr (listing "1")] = true ∧
  assoc "total_articles_to_find_and_parse" (config (JBool true) (JInt 3))
    = Some (JBool true) ∧
  validate_config (JObj (config (JBool true) (JInt 3)))
    = Ret (JArr [JStr (listing "1")], JBool true, JInt 3).
Proof.
  assert (H1 : assoc "base_urls" (config (JBool true) (JInt 3))
               = Some (JArr [JStr (listing "1")])) by reflexivity.
  assert (H2 : py_iter (JArr [JStr (listing "1")]) = Ret [JStr (listing "1")])
    by reflexivity.
  assert (H3 : forallb (λ x, Re.match_ url_check (py_str x)) [JStr (listing "1")] = true)
    by (vm_compute; reflexivity).
  assert (H4 : assoc "total_articles_to_find_and_parse" (config (JBool true) (JInt 3))
               = Some (JBool true)) by reflexivity.
  repeat (split; [assumption|]).
  exact (boolean_total_count _ _ _ _ H1 H2 H3 H4).
Defined.

Lemma empty_base_urls_pass_witness :
  assoc "base_urls" Digest.empty_config = Some (JArr []) ∧
  py_iter (JArr []) = Ret [] ∧
  assoc "total_articles_to_find_and_parse" Digest.empty_config = Some (JInt 5) ∧
  isinstance_int (JInt 5) = true ∧ in_count_range (JInt 5) = true ∧
  assoc "max_number_articles_to_get_from_one_seed" Digest.empty_config
    = Some (JInt 3) ∧
  validate_config (JObj Digest.empty_config) = Ret (JArr [], JInt 5, JInt 3).
Proof.
  assert (H1 : assoc "base_urls" Digest.empty_config = Some (JArr [])) by reflexivity.
  assert (H2 : py_iter (JArr []) = Ret []) by reflexivity.
  assert (H3 : assoc "total_articles_to_find_and_parse" Digest.empty_config
               = Some (JInt 5)) by reflexivity.
  assert (H4 : isinstance_int (JInt 5) = true) by reflexivity.
  assert (H5 : in_count_range (JInt 5) = true) by reflexivity.
  assert (H6 : assoc "max_number_articles_to_get_from_one_seed" Digest.empty_config
               = Some (JInt 3)) by reflexivity.
  repeat (split; [assumption|]).
  exact (empty_base_urls_pass _ _ _ _ H1 H2 H3 H4 H5 H6).
Defined.

Lemma match_ignores_what_follows_witness :
  Re.match_ url_check "a.b.c" = true ∧
  Re.match_ url_check ("a.b.c" +:+ " is not a url") = true.
Proof.
  assert (H : Re.match_ url_check "a.b.c" = true) by (vm_compute; reflexivity).
  split; [exact H|]. exact (match_ignores_what_follows _ _ " is not a url" H).
Defined.

End OnSites.

(** ** Depth of the walk and bounds of the count *)

Section DepthAndBounds.

Import Site.

Local Open Scope string_scope.

(** X26. A walk that needs more nested calls than are available ends
    with [RecursionError], and the state file is then what the last
    completed call persisted, so that a new run goes on from there. *)
Theorem deep_walk_raises_RecursionError (E : Env) (depth : nat)
    (self c : Crawler.t) (s s' : Sys) :
  walked E depth self s = Some (c, s') →
  fst (CrawlerRecursive.find_articles E depth self s) = Raise RecursionError ∧
  crawler_state (snd (CrawlerRecursive.find_articles E depth self s))
    = crawler_state s' ∧
  (depth ≠ O →
   crawler_state s'
   = Some (mkCrawlState (sorted (Crawler.urls c)) (Crawler.seed_urls c))).
Proof.
  revert self s. induction depth as [|depth IH]; intros self s; simpl.
  - intros [= <- <-]. done.
  - unfold bind.
    destruct (CrawlerRecursive.seed_step E self s) as [[[[] self1]|] s1] eqn:Hstep;
      try discriminate.
    intros Hw. destruct (IH _ _ Hw) as (Hrun & Hsame & Hfile).
    split; [done|]. split; [done|]. intros _.
    destruct depth as [|depth]; [|by apply Hfile].
    simpl in Hw. injection Hw as <- <-.
    destruct (seed_step_Ret _ _ _ _ _ _ Hstep)
      as (seed & rest & next & body & links & _ & _ & _ & _ & _ & _ & ->).
    reflexivity.
Qed.

Lemma deep_walk_raises_RecursionError_witness :
  walked env 1 crawler boot = Some (crawler_after_page1, sys_after_page1) ∧
  fst (CrawlerRecursive.find_articles env 1 crawler boot) = Raise RecursionError ∧
  crawler_state (snd (CrawlerRecursive.find_articles env 1 crawler boot))
    = Some state_after_page1.
Proof.
  assert (H : walked env 1 crawler boot = Some (crawler_after_page1, sys_after_page1))
    by (vm_compute; reflexivity).
  split; [exact H|].
  destruct (deep_walk_raises_RecursionError env _ _ _ _ _ H) as (H1 & H2 & _).
  split; [exact H1 | exact H2].
Defined.

(** X27. In a config whose urls match, a total count that is not an
    [int] (a string, a float, [null], a list, a dict) raises
    [IncorrectNumberOfArticlesError], and an [int] raises
    [NumberOfArticlesOutOfRangeError] exactly when it is not in
    [(0, 100000]]. *)
Theorem total_count_checks (members : list (string * json)) (base total : json)
    (xs : list json) :
  assoc "base_urls" members = Some base →
  py_iter base = Ret xs →
  forallb (λ x, Re.match_ url_check (py_str x)) xs = true →
  assoc "total_articles_to_find_and_parse" members = Some total →
  (isinstance_int total = false →
   validate_config (JObj members) = Raise IncorrectNumberOfArticlesError) ∧
  (∀ n, total = JInt n →
     (validate_config (JObj members) = Raise NumberOfArticlesOutOfRangeError
      ↔ ¬ (0 < n <= 100000))).
Proof.
  intros Hb Hi Hu Ht.
  rewrite (validate_config_iter members base total xs Hb Hi Ht), Hu. simpl. split.
  - intros ->. reflexivity.
  - intros n ->. simpl.
    destruct (Z.ltb_spec 0 n); destruct (Z.leb_spec n 100000); simpl.
    + split; [|lia].
      destruct (assoc "max_number_articles_to_get_from_one_seed" members); discriminate.
    + split; [lia|done].
    + split; [lia|done].
    + split; [lia|done].
Qed.

Lemma total_count_checks_witness :
  assoc "base_urls" (config (JFloat "5.0") (JInt 3)) = Some (JArr [JStr (listing "1")]) ∧
  py_iter (JArr [JStr (listing "1")]) = Ret [JStr (listing "1")] ∧
  forallb (λ x, Re.match_ url_check (py_str x)) [JStr (listing "1")] = true ∧
  assoc "total_articles_to_find_and_parse" (config (JFloat "5.0") (JInt 3))
    = Some (JFloat "5.0") ∧
  isinstance_int (JFloat "5.0") = false ∧
  validate_config (JObj (config (JFloat "5.0") (JInt 3)))
    = Raise IncorrectNumberOfArticlesError.
Proof.
  assert (H1 : assoc "base_urls" (config (JFloat "5.0") (JInt 3))
               = Some (JArr [JStr (listing "1")])) by reflexivity.
  assert (H2 : py_iter (JArr [JStr (listing "1")]) = Ret [JStr (listing "1")])
    by reflexivity.
  assert (H3 : forallb (λ x, Re.match_ url_check (py_str x)) [JStr (listing "1")] = true)
    by (vm_compute; reflexivity).
  assert (H4 : assoc "total_articles_to_find_and_parse" (config (JFloat "5.0") (JInt 3))
               = Some (JFloat "5.0")) by reflexivity.
  assert (H5 : isinstance_int (JFloat "5.0") = false) by reflexivity.
  repeat (split; [assumption|]).
  exact (proj1 (total_count_checks _ _ _ _ H1 H2 H3 H4) H5).
Defined.

End DepthAndBounds.
